(** * Todo API server ([server.js]): model and properties

    The server keeps two module-level variables, the array [todos] and the
    counter [nextId], and registers Express route handlers that read and
    write them.  The model below keeps that shape: a [store] record for
    the two variables, one function per handler that takes the pieces of
    the request the handler reads and returns the new store with the
    response, and a route table that is searched in registration order.

    Conventions.
    - A JavaScript string is the list of its UTF-16 code units, so
      [length] is the [.length] of the source.
    - JavaScript numbers that hold ids and counts are integers of [Z];
      the model is exact below [2^53].
    - A timestamp produced by [new Date().toISOString()] is kept as the
      number of milliseconds it denotes; [new Date(s)] reads it back.
    - [undefined] fields of the request body are the value [JUndefined];
      absent query parameters are [None]; a request whose body was not
      parsed has no body at all.
    - [create], [update], [list_todos] and [delete_all] are the handlers
      for a request that has a body and whose query values are strings;
      [post_todo], [put_todo], [list_request] and [delete_all_request]
      are the same handlers for every request, and it is these that the
      router calls. *)

From Stdlib Require Import ZArith NArith Lia Floats.
From stdpp Require Import base list sorting strings.

Local Open Scope Z_scope.

(** ** JavaScript strings *)

Abbreviation jsstring := (list N).

(** The code units of an ASCII literal. *)
Definition str (s : string) : jsstring :=
  map Ascii.N_of_ascii (String.list_ascii_of_string s).

(** White space and line terminators, the characters removed by
    [String.prototype.trim] and skipped by [parseInt]. *)
Definition is_whitespace (c : N) : bool :=
  ((9 <=? c) && (c <=? 13) || (c =? 32) || (c =? 160) || (c =? 5760)
   || (8192 <=? c) && (c <=? 8202) || (c =? 8232) || (c =? 8233)
   || (c =? 8239) || (c =? 8287) || (c =? 12288) || (c =? 65279))%N.

Fixpoint trimStart (s : jsstring) : jsstring :=
  match s with
  | c :: s' => if is_whitespace c then trimStart s' else s
  | [] => []
  end.

Definition trimEnd (s : jsstring) : jsstring :=
  rev (trimStart (rev s)).

Definition trim (s : jsstring) : jsstring :=
  trimEnd (trimStart s).

Fixpoint startsWith (s sub : jsstring) : bool :=
  match sub, s with
  | [], _ => true
  | c :: sub', d :: s' => (c =? d)%N && startsWith s' sub'
  | _ :: _, [] => false
  end.

(** [s.includes(sub)] *)
Fixpoint includes (s sub : jsstring) : bool :=
  startsWith s sub ||
  match s with
  | _ :: s' => includes s' sub
  | [] => false
  end.

(** ** [parseInt] with no radix argument

    Leading white space is skipped, a sign is read, a [0x]/[0X] prefix
    selects radix 16, and the longest prefix of digits is converted.
    [None] is [NaN]. *)

Definition digit_value (c : N) : option Z :=
  if ((48 <=? c) && (c <=? 57))%N then Some (Z.of_N c - 48)
  else if ((97 <=? c) && (c <=? 122))%N then Some (Z.of_N c - 87)
  else if ((65 <=? c) && (c <=? 90))%N then Some (Z.of_N c - 55)
  else None.

Fixpoint parse_digits (radix : Z) (s : jsstring) (acc : option Z) : option Z :=
  match s with
  | c :: s' =>
      match digit_value c with
      | Some d =>
          if d <? radix
          then parse_digits radix s' (Some (radix * default 0 acc + d))
          else acc
      | None => acc
      end
  | [] => acc
  end.

Definition parseInt (input : jsstring) : option Z :=
  let s := trimStart input in
  let '(sign, s) :=
    match s with
    | c :: s' =>
        if (c =? 45)%N then (-1, s')
        else if (c =? 43)%N then (1, s')
        else (1, s)
    | [] => (1, s)
    end in
  let '(radix, s) :=
    match s with
    | c :: x :: s' =>
        if ((c =? 48) && ((x =? 120) || (x =? 88)))%N then (16, s')
        else (10, s)
    | _ => (10, s)
    end in
  match parse_digits radix s None with
  | Some n => Some (sign * n)
  | None => None
  end.

(** ** Values of a parsed JSON body *)

Inductive jsval :=
  | JUndefined
  | JNull
  | JBool (b : bool)
  | JNum (n : Z)
  | JStr (s : jsstring)
  | JObject.   (* an array or an object: truthy, equal to no primitive *)

#[global] Instance jsval_eq_dec : EqDecision jsval.
Proof. solve_decision. Defined.

(** [ToBoolean] *)
Definition truthy (v : jsval) : bool :=
  match v with
  | JUndefined | JNull => false
  | JBool b => b
  | JNum n => negb (n =? 0)
  | JStr s => negb (bool_decide (s = []))
  | JObject => true
  end.

(** ** The data *)

Record todo := Todo {
  id : Z;
  text : jsstring;
  completed : jsval;
  priority : jsstring;
  createdAt : Z;
  updatedAt : Z
}.

#[global] Instance todo_eq_dec : EqDecision todo.
Proof. solve_decision. Defined.

Record store := Store {
  todos : list todo;
  nextId : Z
}.

(** Successive readings of [new Date()] while a piece of code runs. *)
Definition clock := nat -> Z.

(** The module-level initialisation (lines 30-58); the six timestamps
    are read in the order of the source. *)
Definition initial_store (now : clock) : store :=
  {| todos :=
       [ {| id := 1;
            text := str "Node.js " ++ [48176; 50864; 44592]%N;
            completed := JBool false;
            priority := str "high";
            createdAt := now 0%nat;
            updatedAt := now 1%nat |};
         {| id := 2;
            text := str "Express " ++ [49436; 48260; 32; 47564; 46308; 44592]%N;
            completed := JBool true;
            priority := str "medium";
            createdAt := now 2%nat;
            updatedAt := now 3%nat |};
         {| id := 3;
            text := str "REST API " ++ [44396; 54788; 54616; 44592]%N;
            completed := JBool false;
            priority := str "high";
            createdAt := now 4%nat;
            updatedAt := now 5%nat |} ];
     nextId := 4 |}.

(** ** Responses *)

(** The [message] strings of the JSON bodies. *)
Inductive msg :=
  | TodoNotFound          (* 404 of the [:id] handlers *)
  | TextRequired          (* 400, empty text *)
  | TextTooLong           (* 400, more than 100 characters *)
  | PriorityInvalid       (* 400, priority not low, medium or high *)
  | TodoAdded
  | TodoUpdated
  | TodoDeleted
  | DeletedMatching (deletedCount : nat) (isCompleted : bool)
  | DeletedEverything (deletedCount : nat)
  | ListFailed | AddFailed | UpdateFailed | DeleteFailed | StatsFailed  (* 500 *)
  | RouteNotFound.        (* 404 of the catch-all *)

Record stats := Stats {
  total : Z;
  n_completed : Z;
  active : Z;
  completionRate : Z;
  high : Z;
  medium : Z;
  low : Z
}.

Inductive payload :=
  | NoData
  | TodoList (data : list todo) (count : nat) (total : nat)
  | One (data : todo)
  | DeletedCount (deletedCount : nat)
  | StatsData (data : stats).

Inductive json :=
  | Info                                   (* body of [GET /] *)
  | Health (timestamp : Z)                 (* body of [GET /api/health] *)
  | Success (data : payload) (message : option msg)
  | Failure (message : msg).

Record response := Response {
  status : Z;
  body : json
}.

#[global] Instance msg_eq_dec : EqDecision msg.
Proof. solve_decision. Defined.
#[global] Instance stats_eq_dec : EqDecision stats.
Proof. solve_decision. Defined.
#[global] Instance payload_eq_dec : EqDecision payload.
Proof. solve_decision. Defined.
#[global] Instance json_eq_dec : EqDecision json.
Proof. solve_decision. Defined.
#[global] Instance response_eq_dec : EqDecision response.
Proof. solve_decision. Defined.

(** ** Requests *)

Inductive method := GET | POST | PUT | DELETE.

#[global] Instance method_eq_dec : EqDecision method.
Proof. solve_decision. Defined.

(** [req.query]: the three parameters the handlers read. *)
Record query := Query {
  q_completed : option jsstring;
  q_priority : option jsstring;
  q_search : option jsstring
}.

(** [req.body]: the three fields the handlers read. *)
Record fields := Fields {
  f_text : jsval;
  f_completed : jsval;
  f_priority : jsval
}.

(** A value of [req.query] as the query parser delivers it: a string,
    or the array of the values of a key that occurs more than once. *)
Inductive qval := QStr (s : jsstring) | QArr (l : list jsstring).

#[global] Instance qval_eq_dec : EqDecision qval.
Proof. solve_decision. Defined.

(** [req.query] with the values as delivered. *)
Record params := Params {
  p_completed : option qval;
  p_priority : option qval;
  p_search : option qval
}.

(** A request.  The path is the list of the segments between its
    slashes, so that a trailing slash shows as a last, empty segment.
    [req_body] is [None] when no body was parsed and [req.body] is
    [undefined]. *)
Record request := Request {
  req_method : method;
  req_path : list jsstring;
  req_query : params;
  req_body : option fields
}.

Definition no_query : query := Query None None None.
Definition no_fields : fields := Fields JUndefined JUndefined JUndefined.
Definition no_params : params := Params None None None.

(** ** Handlers *)

(** [['low', 'medium', 'high'].includes(priority)] *)
Definition priority_allowed (priority : jsval) : bool :=
  match priority with
  | JStr p => bool_decide (p ∈ [str "low"; str "medium"; str "high"])
  | _ => false
  end.

(** [priority] when it is one of the three allowed strings. *)
Definition allowed_priority (priority : jsval) : option jsstring :=
  match priority with
  | JStr p => if priority_allowed priority then Some p else None
  | _ => None
  end.

Definition fail (code : Z) (m : msg) : response :=
  Response code (Failure m).

(** *** [Array.prototype.sort] with a comparator

    The engine's sort is stable and, for a comparator that is a total
    preorder, returns the one stable ordering; a stable insertion sort
    computes it.  The comparator returns a number, [None] being [NaN],
    which [sort] treats as [0]. *)

Section Sort.
Context {A : Type} (compareFn : A -> A -> option Z).

Definition not_after (a b : A) : bool :=
  match compareFn a b with
  | Some v => v <=? 0
  | None => true
  end.

Fixpoint insert_sorted (a : A) (l : list A) : list A :=
  match l with
  | b :: l' => if not_after a b then a :: l else b :: insert_sorted a l'
  | [] => [a]
  end.

Definition sort (l : list A) : list A :=
  foldr insert_sorted [] l.
End Sort.

(** *** [GET /api/todos] *)

(** [priorityOrder[p]]; [None] is [undefined]. *)
Definition priorityOrder (p : jsstring) : option Z :=
  if bool_decide (p = str "high") then Some 3
  else if bool_decide (p = str "medium") then Some 2
  else if bool_decide (p = str "low") then Some 1
  else None.

(** The comparator of lines 111-117. *)
Definition compare_todos (a b : todo) : option Z :=
  if bool_decide (priorityOrder (priority a) <> priorityOrder (priority b))
  then match priorityOrder (priority b), priorityOrder (priority a) with
       | Some wb, Some wa => Some (wb - wa)
       | _, _ => None
       end
  else Some (createdAt b - createdAt a).

Section List.
(** [String.prototype.toLowerCase], which follows the Unicode case
    tables of the engine. *)
Variable toLowerCase : jsstring -> jsstring.

Definition apply_filters (q : query) (l : list todo) : list todo :=
  let filteredTodos := l in
  let filteredTodos :=
    match q_completed q with
    | Some c =>
        let isCompleted := bool_decide (c = str "true") in
        filter (fun todo => completed todo = JBool isCompleted) filteredTodos
    | None => filteredTodos
    end in
  let filteredTodos :=
    match q_priority q with
    | Some p =>
        if negb (bool_decide (p = [])) && negb (bool_decide (p = str "all"))
        then filter (fun todo => priority todo = p) filteredTodos
        else filteredTodos
    | None => filteredTodos
    end in
  match q_search q with
  | Some s =>
      if negb (bool_decide (s = []))
      then filter (fun todo =>
                     includes (toLowerCase (text todo)) (toLowerCase s) = true)
             filteredTodos
      else filteredTodos
  | None => filteredTodos
  end.

Definition list_todos (q : query) (st : store) : response :=
  let filteredTodos := sort compare_todos (apply_filters q (todos st)) in
  Response 200
    (Success (TodoList filteredTodos (length filteredTodos) (length (todos st)))
       None).

(** The whole handler of lines 86-132, for values of any shape.  An
    array is truthy, differs from ['all'] and is strictly equal to no
    string; it has no [toLowerCase], so the search callback throws on
    the first record it is called with and the [catch] answers 500. *)
Definition filter_completed (c : option qval) (l : list todo) : list todo :=
  match c with
  | Some c =>
      let isCompleted := bool_decide (c = QStr (str "true")) in
      filter (fun todo => completed todo = JBool isCompleted) l
  | None => l
  end.

Definition filter_priority (p : option qval) (l : list todo) : list todo :=
  match p with
  | Some (QStr p) =>
      if negb (bool_decide (p = [])) && negb (bool_decide (p = str "all"))
      then filter (fun todo => priority todo = p) l
      else l
  | Some (QArr _) => filter (fun _ => False) l
  | None => l
  end.

(** [None] when the callback throws. *)
Definition filter_search (s : option qval) (l : list todo)
  : option (list todo) :=
  match s with
  | Some (QStr s) =>
      if negb (bool_decide (s = []))
      then Some (filter (fun todo =>
                           includes (toLowerCase (text todo)) (toLowerCase s)
                           = true) l)
      else Some l
  | Some (QArr _) =>
      match l with
      | [] => Some []
      | _ :: _ => None
      end
  | None => Some l
  end.

Definition list_request (q : params) (st : store) : response :=
  let filteredTodos := todos st in
  let filteredTodos := filter_completed (p_completed q) filteredTodos in
  let filteredTodos := filter_priority (p_priority q) filteredTodos in
  match filter_search (p_search q) filteredTodos with
  | Some filteredTodos =>
      let filteredTodos := sort compare_todos filteredTodos in
      Response 200
        (Success (TodoList filteredTodos (length filteredTodos)
                    (length (todos st)))
           None)
  | None => fail 500 ListFailed
  end.
End List.

(** *** The [:id] handlers *)

(** [t.id === id], where [id] may be [NaN]. *)
Definition same_id (n : option Z) (t : todo) : Prop := n = Some (id t).

#[global] Instance same_id_dec n t : Decision (same_id n t).
Proof. unfold same_id. apply _. Defined.

(** [GET /api/todos/:id] *)
Definition get_one (idparam : jsstring) (st : store) : response :=
  let n := parseInt idparam in
  match list_find (same_id n) (todos st) with
  | None => fail 404 TodoNotFound
  | Some (_, todo) => Response 200 (Success (One todo) None)
  end.

(** The default of the destructuring [priority = 'medium'], which
    applies to [undefined] only. *)
Definition or_medium (priority : jsval) : jsval :=
  match priority with
  | JUndefined => JStr (str "medium")
  | _ => priority
  end.

(** [POST /api/todos] *)
Definition create (now : clock) (b : fields) (st : store) : store * response :=
  let text := f_text b in
  let priority := or_medium (f_priority b) in
  if negb (truthy text) then (st, fail 400 TextRequired)
  else
    match text with
    | JStr text =>
        if bool_decide (trim text = []) then (st, fail 400 TextRequired)
        else if 100 <? Z.of_nat (length text) then (st, fail 400 TextTooLong)
        else
          match allowed_priority priority with
          | None => (st, fail 400 PriorityInvalid)
          | Some priority =>
              let newTodo :=
                {| id := nextId st;
                   text := trim text;
                   completed := JBool false;
                   priority := priority;
                   createdAt := now 0%nat;
                   updatedAt := now 1%nat |} in
              ({| todos := todos st ++ [newTodo]; nextId := nextId st + 1 |},
               Response 201 (Success (One newTodo) (Some TodoAdded)))
          end
    | _ => (st, fail 500 AddFailed)   (* [text.trim] is not a function *)
    end.

(** The patch of lines 252-258 applied to the stored record. *)
Definition merge (old : todo) (b : fields) (now : clock) : todo :=
  {| id := id old;
     text := match f_text b with JStr text => trim text | _ => text old end;
     completed :=
       match f_completed b with JUndefined => completed old | c => c end;
     priority :=
       match f_priority b with JStr p => p | _ => priority old end;
     createdAt := createdAt old;
     updatedAt := now 0%nat |}.

(** [PUT /api/todos/:id] *)
Definition update (now : clock) (idparam : jsstring) (b : fields) (st : store)
  : store * response :=
  let n := parseInt idparam in
  match list_find (same_id n) (todos st) with
  | None => (st, fail 404 TodoNotFound)
  | Some (todoIndex, old) =>
      let checked_text :=
        match f_text b with
        | JUndefined => None
        | JStr text =>
            if bool_decide (trim text = []) then Some (fail 400 TextRequired)
            else if 100 <? Z.of_nat (length text) then Some (fail 400 TextTooLong)
            else None
        | _ => Some (fail 500 UpdateFailed)   (* [text.trim] is not a function *)
        end in
      match checked_text with
      | Some r => (st, r)
      | None =>
          if negb (bool_decide (f_priority b = JUndefined))
             && negb (priority_allowed (f_priority b))
          then (st, fail 400 PriorityInvalid)
          else
            let updatedTodo := merge old b now in
            ({| todos := <[todoIndex := updatedTodo]> (todos st);
                nextId := nextId st |},
             Response 200 (Success (One updatedTodo) (Some TodoUpdated)))
      end
  end.

(** The whole handlers of [POST] and [PUT]: with [req.body] undefined
    the destructuring of line 163, respectively line 217, throws
    before anything else is looked at and the [catch] answers 500. *)
Definition post_todo (now : clock) (body : option fields) (st : store)
  : store * response :=
  match body with
  | Some b => create now b st
  | None => (st, fail 500 AddFailed)
  end.

Definition put_todo (now : clock) (idparam : jsstring) (body : option fields)
    (st : store) : store * response :=
  match body with
  | Some b => update now idparam b st
  | None => (st, fail 500 UpdateFailed)
  end.

(** [DELETE /api/todos/:id] *)
Definition delete_one (idparam : jsstring) (st : store) : store * response :=
  let n := parseInt idparam in
  match list_find (same_id n) (todos st) with
  | None => (st, fail 404 TodoNotFound)
  | Some (todoIndex, deletedTodo) =>
      ({| todos := delete todoIndex (todos st); nextId := nextId st |},
       Response 200 (Success (One deletedTodo) (Some TodoDeleted)))
  end.

(** [DELETE /api/todos] *)
Definition delete_all (q : query) (st : store) : store * response :=
  match q_completed q with
  | Some c =>
      let isCompleted := bool_decide (c = str "true") in
      let deletedCount :=
        length (filter (fun todo => completed todo = JBool isCompleted) (todos st)) in
      ({| todos := filter (fun todo => completed todo <> JBool isCompleted) (todos st);
          nextId := nextId st |},
       Response 200
         (Success (DeletedCount deletedCount)
            (Some (DeletedMatching deletedCount isCompleted))))
  | None =>
      let deletedCount := length (todos st) in
      ({| todos := []; nextId := 1 |},
       Response 200
         (Success (DeletedCount deletedCount)
            (Some (DeletedEverything deletedCount))))
  end.

(** The same handler for a [completed] value of any shape. *)
Definition delete_all_request (q : params) (st : store) : store * response :=
  match p_completed q with
  | Some c =>
      let isCompleted := bool_decide (c = QStr (str "true")) in
      let deletedCount :=
        length (filter (fun todo => completed todo = JBool isCompleted) (todos st)) in
      ({| todos := filter (fun todo => completed todo <> JBool isCompleted) (todos st);
          nextId := nextId st |},
       Response 200
         (Success (DeletedCount deletedCount)
            (Some (DeletedMatching deletedCount isCompleted))))
  | None =>
      let deletedCount := length (todos st) in
      ({| todos := []; nextId := 1 |},
       Response 200
         (Success (DeletedCount deletedCount)
            (Some (DeletedEverything deletedCount))))
  end.

(** *** [GET /api/todos/stats] *)

(** [Math.round] of a double: the nearest integer, ties towards
    positive infinity. *)
Definition Math_round (x : float) : Z :=
  match Prim2SF x with
  | S754_finite s m e =>
      let v := if s then Z.neg m else Z.pos m in
      if 0 <=? e then v * 2 ^ e
      else (2 * v + 2 ^ (- e)) / 2 ^ (1 - e)
  | _ => 0
  end.

(** An integer count as a double. *)
Definition number (z : Z) : float := PrimFloat.of_uint63 (Uint63.of_Z z).

Definition get_stats (st : store) : response :=
  let total := Z.of_nat (length (todos st)) in
  let completed :=
    Z.of_nat (length (filter (fun t => truthy (completed t) = true) (todos st))) in
  let active := total - completed in
  let with_priority p := Z.of_nat (length (filter (fun t => priority t = str p) (todos st))) in
  Response 200
    (Success
       (StatsData
          {| total := total;
             n_completed := completed;
             active := active;
             completionRate :=
               if 0 <? total
               then Math_round (number completed / number total * number 100)%float
               else 0;
             high := with_priority "high";
             medium := with_priority "medium";
             low := with_priority "low" |})
       None).

(** ** Routing

    Express tries the routes in the order in which they were registered
    and the first one whose method and path match answers; none of the
    handlers passes the request on.  A pattern segment is a literal,
    compared without regard to the case of the letters A-Z, or the
    parameter [:id], which matches any one non-empty segment; one
    trailing slash is ignored.  The segments are taken to be free of
    percent escapes.  A request that no route matches is answered 404
    by the catch-all registered last. *)

Inductive segment := Lit (s : jsstring) | Param.

Inductive handler :=
  | RootInfo | HealthCheck | ListTodos | GetTodo | CreateTodo
  | UpdateTodo | DeleteTodo | DeleteAllTodos | GetStats.

Definition routes : list (method * list segment * handler) :=
  [ (GET, [], RootInfo);
    (GET, [Lit (str "api"); Lit (str "health")], HealthCheck);
    (GET, [Lit (str "api"); Lit (str "todos")], ListTodos);
    (GET, [Lit (str "api"); Lit (str "todos"); Param], GetTodo);
    (POST, [Lit (str "api"); Lit (str "todos")], CreateTodo);
    (PUT, [Lit (str "api"); Lit (str "todos"); Param], UpdateTodo);
    (DELETE, [Lit (str "api"); Lit (str "todos"); Param], DeleteTodo);
    (DELETE, [Lit (str "api"); Lit (str "todos")], DeleteAllTodos);
    (GET, [Lit (str "api"); Lit (str "todos"); Lit (str "stats")], GetStats) ].

Definition lower_case_letter (c : N) : N :=
  if ((65 <=? c) && (c <=? 90))%N then (c + 32)%N else c.

(** Equality of segments under the [i] flag of the route's pattern. *)
Definition same_segment (s p : jsstring) : bool :=
  bool_decide (map lower_case_letter s = map lower_case_letter p).

(** The path without its trailing slash. *)
Fixpoint strip_trailing_slash (path : list jsstring) : list jsstring :=
  match path with
  | [[]] => []
  | p :: path' => p :: strip_trailing_slash path'
  | [] => []
  end.

Fixpoint match_segments (pattern : list segment) (path : list jsstring)
  : option (list jsstring) :=
  match pattern, path with
  | [], [] => Some []
  | Lit s :: pattern', p :: path' =>
      if same_segment s p then match_segments pattern' path' else None
  | Param :: pattern', p :: path' =>
      if bool_decide (p = []) then None
      else cons p <$> match_segments pattern' path'
  | _, _ => None
  end.

(** The parameters bound when [path] matches [pattern]. *)
Definition match_path (pattern : list segment) (path : list jsstring)
  : option (list jsstring) :=
  match_segments pattern (strip_trailing_slash path).

Fixpoint first_match (table : list (method * list segment * handler))
    (m : method) (path : list jsstring) : option (handler * list jsstring) :=
  match table with
  | (m', pattern, h) :: table' =>
      match (if bool_decide (m' = m) then match_path pattern path else None) with
      | Some params => Some (h, params)
      | None => first_match table' m path
      end
  | [] => None
  end.

(** [req.params.id] *)
Definition param_id (params : list jsstring) : jsstring :=
  default [] (head params).

(** One request served against the store.  [now] gives the clock
    readings taken by the handler. *)
Definition handle (toLowerCase : jsstring -> jsstring) (now : clock)
    (r : request) (st : store) : store * response :=
  match first_match routes (req_method r) (req_path r) with
  | Some (RootInfo, _) => (st, Response 200 Info)
  | Some (HealthCheck, _) => (st, Response 200 (Health (now 0%nat)))
  | Some (ListTodos, _) => (st, list_request toLowerCase (req_query r) st)
  | Some (GetTodo, params) => (st, get_one (param_id params) st)
  | Some (CreateTodo, _) => post_todo now (req_body r) st
  | Some (UpdateTodo, params) => put_todo now (param_id params) (req_body r) st
  | Some (DeleteTodo, params) => delete_one (param_id params) st
  | Some (DeleteAllTodos, _) => delete_all_request (req_query r) st
  | Some (GetStats, _) => (st, get_stats st)
  | None => (st, fail 404 RouteNotFound)
  end.

(** A sequence of requests, each with its clock readings, served in
    order; the responses are returned in the same order. *)
Fixpoint run (toLowerCase : jsstring -> jsstring)
    (trace : list (clock * request)) (st : store) : store * list response :=
  match trace with
  | [] => (st, [])
  | (now, r) :: trace' =>
      let '(st1, resp) := handle toLowerCase now r st in
      let '(st2, resps) := run toLowerCase trace' st1 in
      (st2, resp :: resps)
  end.

(** A clock and a case mapping for the examples: the clock ticks once
    per reading and the mapping folds the Basic Latin capitals. *)
Definition sample_clock : clock := fun n => 1700000000000 + Z.of_nat n.

Definition fold_basic_latin (s : jsstring) : jsstring :=
  map (fun c => if ((65 <=? c) && (c <=? 90))%N then (c + 32)%N else c) s.

(** The id carried by the response of a successful [POST]. *)
Definition created_id (r : response) : option Z :=
  match r with
  | Response 201 (Success (One t) _) => Some (id t)
  | _ => None
  end.

(** The stored priority is one of the three allowed strings. *)
Definition valid_priority (t : todo) : Prop :=
  priority t ∈ [str "low"; str "medium"; str "high"].

(** The listing order in the words of the specification: the weight
    of a priority is high 3, medium 2, low 1; a record comes before
    another when its weight is larger or, the weights being equal,
    when it was created no earlier. *)
Definition priority_weight (p : jsstring) : Z :=
  if bool_decide (p = str "high") then 3
  else if bool_decide (p = str "medium") then 2
  else if bool_decide (p = str "low") then 1
  else 0.

Definition listed_before (a b : todo) : Prop :=
  priority_weight (priority b) < priority_weight (priority a)
  \/ (priority_weight (priority a) = priority_weight (priority b)
      /\ createdAt b <= createdAt a).

(** The invariant of the store: ids are pairwise distinct and below
    the counter, and priorities are valid. *)
Definition invariant (st : store) : Prop :=
  NoDup (id <$> todos st)
  /\ Forall (fun t => id t < nextId st) (todos st)
  /\ Forall valid_priority (todos st).

(** The request is a [DELETE /api/todos] without [completed], the one
    that assigns [nextId = 1]. *)
Definition resets_counter (r : request) : bool :=
  match first_match routes (req_method r) (req_path r) with
  | Some (DeleteAllTodos, _) => bool_decide (p_completed (req_query r) = None)
  | _ => false
  end.

(** The ids handed out by the creates of a run, in order. *)
Definition created_ids (resps : list response) : list Z :=
  omap created_id resps.

(** Decimal digits and the number a digit string denotes. *)
Definition is_decimal_digit (c : N) : bool := ((48 <=? c) && (c <=? 57))%N.

Definition decimal_value (ds : jsstring) : Z :=
  foldl (fun acc c => 10 * acc + (Z.of_N c - 48)) 0 ds.

(** What the validation of lines 229-249 lets through. *)
Definition patch_accepted (b : fields) : Prop :=
  (f_text b = JUndefined
   \/ exists s, f_text b = JStr s /\ trim s <> [] /\ (length s <= 100)%nat)
  /\ (f_priority b = JUndefined \/ priority_allowed (f_priority b) = true).

(** What the handlers keep true of every stored text: it is not
    empty, has at most 100 code units and is its own trimmed form. *)
Definition text_ok (t : todo) : Prop :=
  text t <> [] /\ (length (text t) <= 100)%nat /\ trim (text t) = text t.

(** The record passes the three filters of the query. *)
Definition passes (toLowerCase : jsstring -> jsstring) (q : query) (t : todo)
  : Prop :=
  (forall c, q_completed q = Some c ->
             completed t = JBool (bool_decide (c = str "true")))
  /\ (forall p, q_priority q = Some p -> p <> [] -> p <> str "all" ->
                priority t = p)
  /\ (forall s, q_search q = Some s -> s <> [] ->
                includes (toLowerCase (text t)) (toLowerCase s) = true).

(** The data model of a stored record: a positive id, a text that is
    non-empty, trimmed and at most 100 code units long, and a priority
    that is one of the three allowed strings. *)
Definition record_ok (t : todo) : Prop :=
  0 < id t /\ text_ok t /\ valid_priority t.

(** Whether a record is wanted by each parameter of a listing, in the
    words of the specification: [completed] selects the records whose
    flag is the requested boolean, [priority] the records with that
    priority unless it is empty or ['all'], [search] the records whose
    lower-cased text contains the lower-cased term unless it is empty.
    No record has an array for its priority. *)
Definition completed_matches (q : params) (t : todo) : bool :=
  match p_completed q with
  | Some c => bool_decide (completed t = JBool (bool_decide (c = QStr (str "true"))))
  | None => true
  end.

Definition priority_matches (q : params) (t : todo) : bool :=
  match p_priority q with
  | Some (QStr p) =>
      bool_decide (p = []) || bool_decide (p = str "all")
      || bool_decide (priority t = p)
  | Some (QArr _) => false
  | None => true
  end.

Definition search_matches (toLowerCase : jsstring -> jsstring) (q : params)
    (t : todo) : bool :=
  match p_search q with
  | Some (QStr s) =>
      bool_decide (s = []) || includes (toLowerCase (text t)) (toLowerCase s)
  | _ => true
  end.

Definition matches (toLowerCase : jsstring -> jsstring) (q : params)
    (t : todo) : bool :=
  completed_matches q t && priority_matches q t && search_matches toLowerCase q t.

(** The search value is an array and some record reaches the search
    callback. *)
Definition search_throws (q : params) (st : store) : Prop :=
  (exists l, p_search q = Some (QArr l))
  /\ exists t, t ∈ todos st
               /\ completed_matches q t = true /\ priority_matches q t = true.

(** The clock does not go back.  The module initialisation takes six
    readings; a request takes reading 0 and, for a create, reading 1.
    [clocks_in_order t trace] says that the readings of the requests
    of [trace], taken in order, start no earlier than [t] and never
    decrease; [last_reading t trace] is the last of them. *)
Definition start_in_order (now : clock) : Prop :=
  now 0%nat <= now 1%nat /\ now 1%nat <= now 2%nat /\ now 2%nat <= now 3%nat
  /\ now 3%nat <= now 4%nat /\ now 4%nat <= now 5%nat.

Fixpoint clocks_in_order (t : Z) (trace : list (clock * request)) : Prop :=
  match trace with
  | [] => True
  | (now, _) :: trace' =>
      t <= now 0%nat /\ now 0%nat <= now 1%nat
      /\ clocks_in_order (now 1%nat) trace'
  end.

Fixpoint last_reading (t : Z) (trace : list (clock * request)) : Z :=
  match trace with
  | [] => t
  | (now, _) :: trace' => last_reading (now 1%nat) trace'
  end.

(** A query whose values are strings, as the router delivers it. *)
Definition as_params (q : query) : params :=
  Params (QStr <$> q_completed q) (QStr <$> q_priority q) (QStr <$> q_search q).

(** * Properties *)

(** ** Evaluation on small inputs *)

Example parseInt_12abc : parseInt (str "12abc") = Some 12.
Proof. reflexivity. Qed.

Example parseInt_stats : parseInt (str "stats") = None.
Proof. reflexivity. Qed.

Example parseInt_hex : parseInt (str "  -0x1F") = Some (-31).
Proof. reflexivity. Qed.

Example trim_inner_space_kept : trim (str "  a b  ") = str "a b".
Proof. reflexivity. Qed.

Example route_list :
  first_match routes GET [str "api"; str "todos"] = Some (ListTodos, []).
Proof. reflexivity. Qed.

Example route_get_one :
  first_match routes GET [str "api"; str "todos"; str "2"]
  = Some (GetTodo, [str "2"]).
Proof. reflexivity. Qed.

Example route_delete_all :
  first_match routes DELETE [str "api"; str "todos"] = Some (DeleteAllTodos, []).
Proof. reflexivity. Qed.

Example route_ignores_case :
  first_match routes DELETE [str "API"; str "Todos"] = Some (DeleteAllTodos, []).
Proof. reflexivity. Qed.

Example route_ignores_trailing_slash :
  first_match routes DELETE [str "api"; str "todos"; []]
  = Some (DeleteAllTodos, [])
  /\ first_match routes GET [str "api"; str "todos"; str "7"; []]
     = Some (GetTodo, [str "7"]).
Proof. split; reflexivity. Qed.

Example reset_under_any_spelling :
  resets_counter (Request DELETE [str "API"; str "TODOS"; []] no_params None)
  = true.
Proof. reflexivity. Qed.

Example post_without_body :
  handle fold_basic_latin sample_clock
    (Request POST [str "api"; str "todos"] no_params None)
    (initial_store sample_clock)
  = (initial_store sample_clock, fail 500 AddFailed).
Proof. reflexivity. Qed.

Example route_unmatched :
  first_match routes POST [str "api"; str "health"] = None.
Proof. reflexivity. Qed.

Example create_100_characters :
  status (snd (create sample_clock
                 (Fields (JStr (repeat 97%N 100)) JUndefined JUndefined)
                 (initial_store sample_clock))) = 201.
Proof. reflexivity. Qed.

Example create_101_characters :
  snd (create sample_clock
         (Fields (JStr (repeat 97%N 101)) JUndefined JUndefined)
         (initial_store sample_clock)) = fail 400 TextTooLong.
Proof. reflexivity. Qed.

Example create_then_get :
  let st := fst (create sample_clock
                   (Fields (JStr (str " Buy milk ")) JUndefined JUndefined)
                   (initial_store sample_clock)) in
  get_one (str "4") st
  = Response 200
      (Success (One (Todo 4 (str "Buy milk") (JBool false) (str "medium")
                       (sample_clock 0%nat) (sample_clock 1%nat))) None).
Proof. reflexivity. Qed.

(** [29 / 200 * 100] is [14.499999999999998] in double arithmetic. *)
Example Math_round_double :
  Math_round (number 29 / number 200 * number 100)%float = 14.
Proof. reflexivity. Qed.

Example completionRate_one_third :
  get_stats (initial_store sample_clock)
  = Response 200 (Success (StatsData (Stats 3 1 2 33 2 1 0)) None).
Proof. vm_compute. reflexivity. Qed.

(** ** Lookup by id *)

Lemma find_NaN (l : list todo) : list_find (same_id None) l = None.
Proof.
  induction l as [|t l IH]; [reflexivity|].
  cbn. rewrite decide_False by (unfold same_id; discriminate).
  now rewrite IH.
Qed.

Lemma find_same_id n l i t :
  list_find (same_id n) l = Some (i, t) ->
  l !! i = Some t /\ n = Some (id t).
Proof.
  intros H. apply list_find_Some in H as (Hl & Hn & _). now split.
Qed.

(** ** [POST /api/todos]: the two outcomes *)

Lemma create_cases now b st :
  (fst (create now b st) = st /\
   exists code m, snd (create now b st) = fail code m /\ (code = 400 \/ code = 500))
  \/
  (exists s p,
      (f_text b = JStr s /\ allowed_priority (or_medium (f_priority b)) = Some p) /\
      let t := Todo (nextId st) (trim s) (JBool false) p (now 0%nat) (now 1%nat) in
      create now b st
      = (Store (todos st ++ [t]) (nextId st + 1),
         Response 201 (Success (One t) (Some TodoAdded)))).
Proof.
  unfold create.
  destruct (truthy (f_text b)); cbn [negb]; [|left; eauto 10].
  destruct (f_text b) as [| |?|?|s|]; try solve [left; cbn; eauto 10].
  case_bool_decide; [left; cbn; eauto 10|].
  destruct (100 <? _); [left; cbn; eauto 10|].
  destruct (allowed_priority _) as [p|] eqn:Hp; [|left; cbn; eauto 10].
  right. exists s, p. split; [split|]; reflexivity.
Qed.

Lemma create_success now b st :
  status (snd (create now b st)) = 201 ->
  exists t,
    create now b st
    = (Store (todos st ++ [t]) (nextId st + 1),
       Response 201 (Success (One t) (Some TodoAdded)))
    /\ id t = nextId st.
Proof.
  intros H. destruct (create_cases now b st) as [(_ & c & m & E & Hc)|(s & p & _ & E)].
  - rewrite E in H. cbn in H. lia.
  - eexists. split; [exact E|reflexivity].
Qed.

Lemma create_nextId now b st :
  nextId st <= nextId (fst (create now b st)).
Proof.
  destruct (create_cases now b st) as [(E & _)|(s & p & _ & E)].
  - rewrite E. lia.
  - cbn zeta in E. rewrite E. cbn. lia.
Qed.

(** ** Routing of [GET /api/todos/stats] *)

Lemma stats_path_routed_to_get_one :
  first_match routes GET [str "api"; str "todos"; str "stats"]
  = Some (GetTodo, [str "stats"]).
Proof. reflexivity. Qed.

(** No request reaches the statistics handler: every path it would
    match is taken by the [:id] route registered before it. *)
Lemma stats_segments_match_id sp ps :
  match_segments [Lit (str "api"); Lit (str "todos"); Lit (str "stats")] sp
  = Some ps ->
  match_segments [Lit (str "api"); Lit (str "todos"); Param] sp <> None.
Proof.
  destruct sp as [|a [|b [|c [|d sp]]]]; cbn; try discriminate;
    destruct (same_segment _ a); try discriminate;
    destruct (same_segment _ b); try discriminate.
  - destruct (same_segment _ c) eqn:E; [|discriminate].
    case_bool_decide; [subst c; discriminate E|]. discriminate.
  - destruct (same_segment _ c); discriminate.
Qed.

Lemma stats_handler_unreachable m path params :
  first_match routes m path <> Some (GetStats, params).
Proof.
  unfold routes. cbv [first_match]. unfold match_path.
  destruct m;
    repeat first [ rewrite bool_decide_eq_true_2 by reflexivity
                 | rewrite bool_decide_eq_false_2 by discriminate ];
    repeat match goal with
           | |- context [match_segments ?pat (strip_trailing_slash path)] =>
               destruct (match_segments pat (strip_trailing_slash path)) eqn:?
           end; try congruence.
  exfalso. eapply stats_segments_match_id; eassumption.
Qed.

(** C1 (code defect).  The claim: [GET /api/todos/stats] succeeds with
    status 200 and the statistics, and is never answered by the
    get-one handler.  The code: in every state of the store, with any
    query and body, the request is answered by the get-one handler of
    [/api/todos/:id], registered earlier, with [id = "stats"]; [parseInt]
    gives [NaN], no record matches and the response is 404. *)
Theorem stats_request_answered_by_get_one lower now q b st :
  handle lower now (Request GET [str "api"; str "todos"; str "stats"] q b) st
  = (st, fail 404 TodoNotFound).
Proof.
  unfold handle. cbn [req_method req_path].
  rewrite stats_path_routed_to_get_one.
  unfold get_one.
  change (parseInt (param_id [str "stats"])) with (parseInt (str "stats")).
  rewrite parseInt_stats, find_NaN. reflexivity.
Qed.

(** ** The initial store *)

(** C4.  At start the collection holds exactly three records with ids
    1, 2, 3 (1 and 3 high and not completed, 2 medium and completed),
    the counter is 4, and a successful create on the fresh store
    allocates id 4. *)
Theorem initial_store_seeded now :
  map id (todos (initial_store now)) = [1; 2; 3]
  /\ map priority (todos (initial_store now))
     = [str "high"; str "medium"; str "high"]
  /\ map completed (todos (initial_store now))
     = [JBool false; JBool true; JBool false]
  /\ nextId (initial_store now) = 4
  /\ forall now' b,
       status (snd (create now' b (initial_store now))) = 201 ->
       created_id (snd (create now' b (initial_store now))) = Some 4.
Proof.
  repeat split.
  intros now' b H. apply create_success in H as (t & E & Ht).
  rewrite E. cbn. now rewrite Ht.
Qed.

Lemma initial_store_seeded_witness :
  created_id
    (snd (create sample_clock (Fields (JStr (str "Buy milk")) JUndefined JUndefined)
            (initial_store sample_clock)))
  = Some 4.
Proof.
  apply (proj2 (proj2 (proj2 (proj2 (initial_store_seeded sample_clock))))).
  reflexivity.
Defined.

(** ** Ids that do not parse *)

Lemma decimal_digit_range c :
  is_decimal_digit c = true <-> (48 <= c <= 57)%N.
Proof.
  unfold is_decimal_digit. rewrite andb_true_iff, !N.leb_le. tauto.
Qed.

Lemma parse_digits_stops rest acc :
  (forall c, head rest = Some c -> is_decimal_digit c = false) ->
  parse_digits 10 rest acc = acc.
Proof.
  destruct rest as [|c rest]; [reflexivity|].
  intros H. specialize (H c eq_refl). cbn. unfold digit_value.
  unfold is_decimal_digit in H. rewrite H.
  destruct ((97 <=? c) && (c <=? 122))%N eqn:E1.
  - apply andb_true_iff in E1 as [E1 _]. apply N.leb_le in E1.
    replace (Z.of_N c - 87 <? 10) with false; [reflexivity|].
    symmetry. apply Z.ltb_ge. lia.
  - destruct ((65 <=? c) && (c <=? 90))%N eqn:E2; [|reflexivity].
    apply andb_true_iff in E2 as [E2 _]. apply N.leb_le in E2.
    replace (Z.of_N c - 55 <? 10) with false; [reflexivity|].
    symmetry. apply Z.ltb_ge. lia.
Qed.

Lemma parse_digits_decimal ds rest acc :
  Forall (fun c => is_decimal_digit c = true) ds ->
  (forall c, head rest = Some c -> is_decimal_digit c = false) ->
  parse_digits 10 (ds ++ rest) acc
  = match ds with
    | [] => acc
    | _ => Some (foldl (fun a c => 10 * a + (Z.of_N c - 48)) (default 0 acc) ds)
    end.
Proof.
  intros Hds Hrest. revert acc.
  induction Hds as [|d ds Hd Hds IH]; intros acc.
  - now apply parse_digits_stops.
  - cbn [app parse_digits]. unfold digit_value.
    pose proof Hd as Hd'. unfold is_decimal_digit in Hd'. rewrite Hd'.
    apply decimal_digit_range in Hd.
    replace (Z.of_N d - 48 <? 10) with true by (symmetry; apply Z.ltb_lt; lia).
    rewrite IH. destruct ds; reflexivity.
Qed.

(** A parameter that starts with decimal digits parses to the number
    those digits denote, whatever follows them; the one exception is a
    lone ["0"] followed by [x] or [X], which starts a hexadecimal
    number. *)
Lemma parseInt_decimal_prefix ds rest :
  ds <> [] ->
  Forall (fun c => is_decimal_digit c = true) ds ->
  (forall c, head rest = Some c ->
             is_decimal_digit c = false /\ c <> 120%N /\ c <> 88%N) ->
  parseInt (ds ++ rest) = Some (decimal_value ds).
Proof.
  intros Hne Hds Hrest. destruct ds as [|d ds]; [contradiction|].
  pose proof Hds as Hall. apply Forall_cons in Hds as [Hd Hds].
  apply decimal_digit_range in Hd.
  assert (Hws : is_whitespace d = false).
  { unfold is_whitespace.
    repeat match goal with
           | |- context [(?a <=? ?b)%N] => destruct (N.leb_spec a b)
           | |- context [(?a =? ?b)%N] => destruct (N.eqb_spec a b)
           end; cbn; try reflexivity; lia. }
  unfold parseInt. cbn [app trimStart]. rewrite Hws.
  replace (d =? 45)%N with false by (symmetry; apply N.eqb_neq; lia).
  replace (d =? 43)%N with false by (symmetry; apply N.eqb_neq; lia).
  assert (Hradix :
            match (d :: ds) ++ rest with
            | c :: x :: s' =>
                if ((c =? 48) && ((x =? 120) || (x =? 88)))%N
                then (16, s') else (10, (d :: ds) ++ rest)
            | _ => (10, (d :: ds) ++ rest)
            end = (10, (d :: ds) ++ rest)).
  { cbn [app]. destruct (ds ++ rest) as [|x s'] eqn:E; [reflexivity|].
    assert (Hx : x <> 120%N /\ x <> 88%N).
    { destruct ds as [|d' ds'].
      - cbn in E. subst rest. now destruct (Hrest x eq_refl) as (_ & ? & ?).
      - cbn in E. injection E as <- _.
        apply Forall_cons in Hds as [Hd' _].
        apply decimal_digit_range in Hd'. lia. }
    destruct Hx as [Hx1 Hx2].
    apply N.eqb_neq in Hx1, Hx2. rewrite Hx1, Hx2.
    now rewrite andb_false_r. }
  cbn [app] in Hradix. rewrite Hradix.
  change (d :: ds ++ rest) with ((d :: ds) ++ rest).
  rewrite parse_digits_decimal; [|exact Hall|].
  - unfold decimal_value. cbn [default]. f_equal. lia.
  - intros c Hc. now destruct (Hrest c Hc).
Qed.

Lemma handlers_depend_on_parsed_id p q :
  parseInt p = parseInt q ->
  forall now b st,
    get_one p st = get_one q st
    /\ update now p b st = update now q b st
    /\ delete_one p st = delete_one q st.
Proof.
  intros E now b st. unfold get_one, update, delete_one. now rewrite E.
Qed.

(** C10, refuted as stated: a [PUT] whose id does not parse and that
    carries no body is answered 500, not 404; line 217 destructures
    [req.body] before the record is looked up. *)
Lemma bodyless_put_answers_500 :
  handle fold_basic_latin sample_clock
    (Request PUT [str "api"; str "todos"; str "abc"] no_params None)
    (initial_store sample_clock)
  = (initial_store sample_clock, fail 500 UpdateFailed).
Proof. reflexivity. Qed.

(** C10, amended.  When the id parameter does not parse ([parseInt]
    gives [NaN]), get and delete answer 404, update answers 404 when
    the request has a body and 500 when it has none, and all three
    leave the store as it was; a parameter with a numeric prefix is
    handled as that number:
    ["12abc"] is handled exactly as ["12"], the id 12, and in general
    decimal digits followed by anything that is not a digit (nor the
    [x] of a hexadecimal prefix) are handled as the digits alone. *)
Theorem unparsable_id_not_found idparam :
  parseInt idparam = None ->
  forall now b st,
    get_one idparam st = fail 404 TodoNotFound
    /\ put_todo now idparam (Some b) st = (st, fail 404 TodoNotFound)
    /\ put_todo now idparam None st = (st, fail 500 UpdateFailed)
    /\ delete_one idparam st = (st, fail 404 TodoNotFound)
    /\ parseInt (str "12abc") = Some 12
    /\ get_one (str "12abc") st = get_one (str "12") st
    /\ update now (str "12abc") b st = update now (str "12") b st
    /\ delete_one (str "12abc") st = delete_one (str "12") st
    /\ forall ds rest,
         ds <> [] ->
         Forall (fun c => is_decimal_digit c = true) ds ->
         (forall c, head rest = Some c ->
                    is_decimal_digit c = false /\ c <> 120%N /\ c <> 88%N) ->
         parseInt (ds ++ rest) = Some (decimal_value ds)
         /\ get_one (ds ++ rest) st = get_one ds st
         /\ update now (ds ++ rest) b st = update now ds b st
         /\ delete_one (ds ++ rest) st = delete_one ds st.
Proof.
  intros H now b st.
  repeat (split; [unfold put_todo, get_one, update, delete_one;
                  rewrite ?H, ?find_NaN; reflexivity|]).
  intros ds rest Hne Hds Hrest.
  split; [now apply parseInt_decimal_prefix|].
  apply handlers_depend_on_parsed_id.
  rewrite parseInt_decimal_prefix by assumption.
  rewrite <- (app_nil_r ds) at 2.
  rewrite parseInt_decimal_prefix; [reflexivity|assumption|assumption|].
  intros c Hc. discriminate Hc.
Qed.

Lemma unparsable_id_not_found_witness :
  let st := initial_store sample_clock in
  get_one (str "abc") st = fail 404 TodoNotFound
  /\ put_todo sample_clock (str "abc")
       (Some (Fields JUndefined (JBool true) JUndefined)) st
     = (st, fail 404 TodoNotFound)
  /\ put_todo sample_clock (str "abc") None st = (st, fail 500 UpdateFailed)
  /\ delete_one (str "abc") st = (st, fail 404 TodoNotFound).
Proof.
  intros st.
  pose proof (unparsable_id_not_found (str "abc") eq_refl sample_clock
                (Fields JUndefined (JBool true) JUndefined) st)
    as (H1 & H2 & H3 & H4 & _).
  exact (conj H1 (conj H2 (conj H3 H4))).
Defined.

(** ** [DELETE /api/todos] *)

(** C5.  Without a [completed] parameter every record is removed, the
    counter is reset to 1, the prior number of records is returned and
    the next successful create gets id 1.  With the parameter exactly
    the records whose [completed] equals the requested state are
    removed (the others stay, in order), their number is returned, the
    counter keeps its value and the next successful create gets it. *)
Theorem delete_all_spec st :
  (forall p s,
      let q := Query None p s in
      delete_all q st
      = (Store [] 1,
         Response 200
           (Success (DeletedCount (length (todos st)))
              (Some (DeletedEverything (length (todos st))))))
      /\ forall now b,
           status (snd (create now b (fst (delete_all q st)))) = 201 ->
           created_id (snd (create now b (fst (delete_all q st)))) = Some 1)
  /\
  (forall c p s,
      let q := Query (Some c) p s in
      let isCompleted := bool_decide (c = str "true") in
      let st' := fst (delete_all q st) in
      (forall t, t ∈ todos st' <-> t ∈ todos st /\ completed t <> JBool isCompleted)
      /\ todos st' `sublist_of` todos st
      /\ (exists n,
             snd (delete_all q st)
             = Response 200
                 (Success (DeletedCount n) (Some (DeletedMatching n isCompleted)))
             /\ n = length (filter (fun t => completed t = JBool isCompleted) (todos st))
             /\ (n + length (todos st') = length (todos st))%nat)
      /\ nextId st' = nextId st
      /\ forall now b,
           status (snd (create now b st')) = 201 ->
           created_id (snd (create now b st')) = Some (nextId st)).
Proof.
  split.
  - intros p s q. split; [reflexivity|].
    intros now b H. apply create_success in H as (t & E & Ht).
    rewrite E. cbn. now rewrite Ht.
  - intros c p s q isCompleted st'. subst st' q. cbn.
    fold isCompleted. split; [|split; [|split; [|split]]].
    + intros t. rewrite list_elem_of_filter. tauto.
    + apply sublist_filter.
    + eexists. split; [reflexivity|]. split; [reflexivity|].
      induction (todos st) as [|t l IH]; [reflexivity|].
      rewrite !filter_cons.
      repeat case_decide; cbn [length]; try lia; tauto.
    + reflexivity.
    + intros now b H. apply create_success in H as (t & E & Ht).
      rewrite E. cbn. now rewrite Ht.
Qed.

Lemma delete_all_spec_witness :
  created_id
    (snd (create sample_clock (Fields (JStr (str "Buy milk")) JUndefined JUndefined)
            (fst (delete_all no_query (initial_store sample_clock)))))
  = Some 1
  /\ created_id
       (snd (create sample_clock (Fields (JStr (str "Buy milk")) JUndefined JUndefined)
               (fst (delete_all (Query (Some (str "true")) None None)
                       (initial_store sample_clock)))))
     = Some 4.
Proof.
  split.
  - apply (proj2 (proj1 (delete_all_spec (initial_store sample_clock)) None None)).
    reflexivity.
  - apply (proj2 (proj2 (proj2 (proj2
             (proj2 (delete_all_spec (initial_store sample_clock))
                (str "true") None None))))).
    reflexivity.
Defined.

(** ** [PUT /api/todos/:id]: the outcomes *)

Lemma update_found now idparam b st i old :
  list_find (same_id (parseInt idparam)) (todos st) = Some (i, old) ->
  (fst (update now idparam b st) = st /\
   exists code m, snd (update now idparam b st) = fail code m
                  /\ (code = 400 \/ code = 500))
  \/
  (patch_accepted b /\
   update now idparam b st
   = (Store (<[i := merge old b now]> (todos st)) (nextId st),
      Response 200 (Success (One (merge old b now)) (Some TodoUpdated)))).
Proof.
  intros Hf. unfold update, patch_accepted. rewrite Hf.
  destruct (f_text b) as [| |?|?|s|] eqn:Et; try solve [left; cbn; eauto 10].
  - destruct (decide (f_priority b = JUndefined)) as [Ep|Ep].
    + rewrite Ep. cbn. right. eauto.
    + rewrite bool_decide_eq_false_2 by assumption. cbn [negb andb].
      destruct (priority_allowed (f_priority b)) eqn:Ea; cbn [negb].
      * right. eauto.
      * left; cbn; eauto 10.
  - case_bool_decide as Htrim; [left; cbn; eauto 10|].
    destruct (100 <? _) eqn:Hlen; [left; cbn; eauto 10|].
    apply Z.ltb_ge in Hlen.
    destruct (decide (f_priority b = JUndefined)) as [Ep|Ep].
    + rewrite Ep. cbn. right. split; [|reflexivity].
      split; [right; exists s; repeat split; auto; lia | now left].
    + rewrite bool_decide_eq_false_2 by assumption. cbn [negb andb].
      destruct (priority_allowed (f_priority b)) eqn:Ea; cbn [negb].
      * right. split; [|reflexivity].
        split; [right; exists s; repeat split; auto; lia | now right].
      * left; cbn; eauto 10.
Qed.

Lemma update_not_found now idparam b st :
  list_find (same_id (parseInt idparam)) (todos st) = None ->
  update now idparam b st = (st, fail 404 TodoNotFound).
Proof. intros Hf. unfold update. now rewrite Hf. Qed.

Lemma update_success now idparam b st :
  status (snd (update now idparam b st)) = 200 ->
  exists i old,
    list_find (same_id (parseInt idparam)) (todos st) = Some (i, old)
    /\ patch_accepted b
    /\ update now idparam b st
       = (Store (<[i := merge old b now]> (todos st)) (nextId st),
          Response 200 (Success (One (merge old b now)) (Some TodoUpdated))).
Proof.
  intros H.
  destruct (list_find (same_id (parseInt idparam)) (todos st)) as [[i old]|] eqn:Hf.
  - destruct (update_found now idparam b st i old Hf)
      as [(_ & c & m & E & Hc)|(Hp & E)].
    + rewrite E in H. cbn in H. lia.
    + eauto.
  - rewrite update_not_found in H by assumption. discriminate.
Qed.

(** ** Rejected priorities *)




(** ** Validation of the text *)

Lemma allowed_priority_None p :
  allowed_priority p = None <-> priority_allowed p = false.
Proof.
  unfold allowed_priority.
  destruct p; try (split; reflexivity).
  destruct (priority_allowed (JStr s)); split; congruence.
Qed.

Lemma allowed_or_medium_None p :
  allowed_priority (or_medium p) = None
  <-> p <> JUndefined /\ priority_allowed p = false.
Proof.
  destruct p; cbn [or_medium]; rewrite ?allowed_priority_None;
    try (split; [intros H; split; [discriminate|exact H] | now intros [_ H]]).
  split; [discriminate|]. now intros [H _].
Qed.

(** C2, refuted as stated: a text of 101 code units, one letter
    followed by 100 spaces, has a trimmed form of length 1, yet create
    and update reject it with 400 (too long). *)
Lemma padded_text_rejected :
  let s := str "a" ++ repeat 32%N 100 in
  let st := initial_store sample_clock in
  trim s = str "a"
  /\ create sample_clock (Fields (JStr s) JUndefined JUndefined) st
     = (st, fail 400 TextTooLong)
  /\ update sample_clock (str "1") (Fields (JStr s) JUndefined JUndefined) st
     = (st, fail 400 TextTooLong).
Proof. vm_compute. repeat split. Qed.

(** C2, amended.  The length limit is checked on the text as
    received, before trimming.  For a string text, create answers 400
    exactly when the trimmed text is empty, or the untrimmed text has
    more than 100 code units, or the priority is present and not
    allowed; otherwise it answers 201.  Update of an existing id with a
    string text answers 400 under the same condition and 200
    otherwise. *)
Theorem text_limit_on_untrimmed now s c p st :
  let rejected :=
    trim s = [] \/ (100 < length s)%nat
    \/ (p <> JUndefined /\ priority_allowed p = false) in
  (status (snd (create now (Fields (JStr s) c p) st)) = 400 <-> rejected)
  /\ (~ rejected -> status (snd (create now (Fields (JStr s) c p) st)) = 201)
  /\ forall idparam,
       is_Some (list_find (same_id (parseInt idparam)) (todos st)) ->
       (status (snd (update now idparam (Fields (JStr s) c p) st)) = 400
        <-> rejected)
       /\ (~ rejected ->
           status (snd (update now idparam (Fields (JStr s) c p) st)) = 200).
Proof.
  intros rejected. subst rejected.
  assert (Hlen : (100 <? Z.of_nat (length s)) = true <-> (100 < length s)%nat)
    by (rewrite Z.ltb_lt; lia).
  assert (Hcreate :
            (status (snd (create now (Fields (JStr s) c p) st)) = 400
             /\ (trim s = [] \/ (100 < length s)%nat
                 \/ (p <> JUndefined /\ priority_allowed p = false)))
            \/ (status (snd (create now (Fields (JStr s) c p) st)) = 201
                /\ ~ (trim s = [] \/ (100 < length s)%nat
                      \/ (p <> JUndefined /\ priority_allowed p = false)))).
  { unfold create. cbn [f_text f_priority truthy].
    case_bool_decide as Hs; cbn [negb].
    { left. subst s. cbn. auto. }
    case_bool_decide as Ht; [left; cbn; auto|].
    destruct (100 <? _) eqn:Hl; [left; cbn; split; [reflexivity|]; tauto|].
    destruct (allowed_priority (or_medium p)) as [q|] eqn:Hp.
    - right. cbn. split; [reflexivity|].
      intros [?|[?|Hq]]; [tauto| |].
      + apply Hlen in H. congruence.
      + apply allowed_or_medium_None in Hq. congruence.
    - left. cbn. split; [reflexivity|].
      apply allowed_or_medium_None in Hp. tauto. }
  split; [|split].
  - destruct Hcreate as [[-> ?]|[-> ?]]; split; try tauto; discriminate.
  - destruct Hcreate as [[-> ?]|[-> ?]]; tauto.
  - intros idparam [[i old] Hf].
    assert (Hupdate :
              (status (snd (update now idparam (Fields (JStr s) c p) st)) = 400
               /\ (trim s = [] \/ (100 < length s)%nat
                   \/ (p <> JUndefined /\ priority_allowed p = false)))
              \/ (status (snd (update now idparam (Fields (JStr s) c p) st)) = 200
                  /\ ~ (trim s = [] \/ (100 < length s)%nat
                        \/ (p <> JUndefined /\ priority_allowed p = false)))).
    { unfold update. rewrite Hf. cbn [f_text f_priority].
      case_bool_decide as Ht; [left; cbn; auto|].
      destruct (100 <? _) eqn:Hl; [left; cbn; split; [reflexivity|]; tauto|].
      case_bool_decide as Hu; cbn [negb andb].
      - right. cbn. split; [reflexivity|].
        intros [?|[?|[? _]]]; [tauto| |tauto].
        apply Hlen in H. congruence.
      - destruct (priority_allowed p) eqn:Hp; cbn [negb].
        + right. cbn. split; [reflexivity|].
          intros [?|[?|[_ ?]]]; [tauto| |congruence].
          apply Hlen in H. congruence.
        + left. cbn. split; [reflexivity|]. tauto. }
    split.
    + destruct Hupdate as [[-> ?]|[-> ?]]; split; try tauto; discriminate.
    + destruct Hupdate as [[-> ?]|[-> ?]]; tauto.
Qed.

Lemma text_limit_on_untrimmed_witness :
  status (snd (update sample_clock (str "3")
                 (Fields (JStr (str "  Buy milk  ")) JUndefined JUndefined)
                 (initial_store sample_clock)))
  = 200.
Proof.
  apply (proj2 (proj2 (proj2 (text_limit_on_untrimmed sample_clock
                                (str "  Buy milk  ") JUndefined JUndefined
                                (initial_store sample_clock)))
                  (str "3") ltac:(eexists; reflexivity))).
  vm_compute. intros [H|[H|[H _]]]; [discriminate H| |exact (H eq_refl)].
  lia.
Defined.

(** ** Sorting *)

Section SortFacts.
Context {A : Type} (compareFn : A -> A -> option Z).
Context (R : relation A) (P : A -> Prop).
Hypothesis R_trans : Transitive R.
Hypothesis not_after_R :
  forall a b, P a -> P b -> not_after compareFn a b = true -> R a b.
Hypothesis after_R :
  forall a b, P a -> P b -> not_after compareFn a b = false -> R b a.

Lemma insert_sorted_Permutation a l :
  insert_sorted compareFn a l ≡ₚ a :: l.
Proof.
  induction l as [|b l IH]; cbn; [reflexivity|].
  destruct (not_after compareFn a b); [reflexivity|].
  rewrite IH. apply perm_swap.
Qed.

Lemma sort_Permutation l : sort compareFn l ≡ₚ l.
Proof.
  induction l as [|a l IH]; cbn; [reflexivity|].
  unfold sort in IH. now rewrite insert_sorted_Permutation, IH.
Qed.

Lemma insert_sorted_StronglySorted a l :
  P a -> Forall P l -> StronglySorted R l ->
  StronglySorted R (insert_sorted compareFn a l).
Proof.
  intros Pa Pl Hs. induction Hs as [|b l Hs IH Hb]; cbn.
  - repeat constructor.
  - apply Forall_cons in Pl as [Pb Pl].
    destruct (not_after compareFn a b) eqn:E.
    + constructor; [now constructor|].
      assert (Rab : R a b) by now apply not_after_R.
      constructor; [exact Rab|].
      eapply Forall_impl; [exact Hb|]. intros x Rbx. now transitivity b.
    + constructor; [now apply IH|].
      rewrite insert_sorted_Permutation. constructor; [|exact Hb].
      now apply after_R.
Qed.

Lemma sort_StronglySorted l :
  Forall P l -> StronglySorted R (sort compareFn l).
Proof.
  induction l as [|a l IH]; cbn; [constructor|].
  intros [Pa Pl]%Forall_cons.
  apply insert_sorted_StronglySorted; [exact Pa| |now apply IH].
  fold (sort compareFn l). now rewrite sort_Permutation.
Qed.
End SortFacts.

#[global] Instance listed_before_trans : Transitive listed_before.
Proof. intros a b c. unfold listed_before. lia. Qed.

Lemma valid_priority_order t :
  valid_priority t ->
  priorityOrder (priority t) = Some (priority_weight (priority t)).
Proof.
  unfold valid_priority. rewrite !elem_of_cons, elem_of_nil.
  intros [->|[->|[->|[]]]]; reflexivity.
Qed.

Lemma compare_todos_valid a b :
  valid_priority a -> valid_priority b ->
  compare_todos a b
  = Some (if bool_decide (priority_weight (priority a) = priority_weight (priority b))
          then createdAt b - createdAt a
          else priority_weight (priority b) - priority_weight (priority a)).
Proof.
  intros Ha Hb. unfold compare_todos.
  rewrite (valid_priority_order a Ha), (valid_priority_order b Hb).
  repeat case_bool_decide; congruence.
Qed.

Lemma not_after_listed_before a b :
  valid_priority a -> valid_priority b ->
  not_after compare_todos a b = true -> listed_before a b.
Proof.
  intros Ha Hb. unfold not_after, listed_before.
  rewrite compare_todos_valid by assumption.
  case_bool_decide; rewrite Z.leb_le; lia.
Qed.

Lemma after_listed_before a b :
  valid_priority a -> valid_priority b ->
  not_after compare_todos a b = false -> listed_before b a.
Proof.
  intros Ha Hb. unfold not_after, listed_before.
  rewrite compare_todos_valid by assumption.
  case_bool_decide; rewrite Z.leb_gt; lia.
Qed.

Lemma Forall_sublist {A} (P : A -> Prop) (k l : list A) :
  k `sublist_of` l -> Forall P l -> Forall P k.
Proof.
  intros Hk. rewrite !Forall_forall. intros H x Hx.
  apply H. eapply sublist_subseteq; eassumption.
Qed.

Lemma apply_filters_sublist lower q l :
  apply_filters lower q l `sublist_of` l.
Proof.
  unfold apply_filters.
  destruct (q_search q) as [s|]; [destruct (negb _)|];
    (destruct (q_priority q) as [p|]; [destruct (negb _ && negb _)|]);
    (destruct (q_completed q) as [c|]);
    repeat (etransitivity; [apply sublist_filter|]); reflexivity.
Qed.

(** *** The listing handler in terms of [matches] *)

Lemma filter_all {A} (P : A -> Prop) `{forall x, Decision (P x)} (l : list A) :
  (forall x, P x) -> filter P l = l.
Proof.
  intros HP. induction l as [|x l IH]; [reflexivity|].
  now rewrite filter_cons_True, IH.
Qed.

Lemma prefilter_matches q (l : list todo) :
  filter_priority (p_priority q) (filter_completed (p_completed q) l)
  = filter (fun t => completed_matches q t = true /\ priority_matches q t = true) l.
Proof.
  assert (Hc : filter_completed (p_completed q) l
               = filter (fun t => completed_matches q t = true) l).
  { unfold filter_completed, completed_matches. destruct (p_completed q) as [c|].
    - apply list_filter_iff. intros t. now rewrite bool_decide_eq_true.
    - symmetry. now apply filter_all. }
  rewrite Hc. unfold filter_priority, priority_matches.
  destruct (p_priority q) as [[p|k]|].
  - repeat case_bool_decide; cbn [negb andb orb];
      try (apply list_filter_iff; intros t; tauto).
    rewrite list_filter_filter. apply list_filter_iff. intros t.
    rewrite bool_decide_eq_true. tauto.
  - rewrite list_filter_filter. apply list_filter_iff. intros t.
    split; [tauto|intros [_ [=]]].
  - apply list_filter_iff. intros t. tauto.
Qed.

Lemma matches_true lower q t :
  matches lower q t = true
  <-> (completed_matches q t = true /\ priority_matches q t = true)
      /\ search_matches lower q t = true.
Proof. unfold matches. now rewrite !andb_true_iff. Qed.

Lemma list_request_throws lower q st :
  search_throws q st -> list_request lower q st = fail 500 ListFailed.
Proof.
  intros [[k Hk] (t & Ht & Hc & Hp)]. unfold list_request. cbn zeta.
  rewrite prefilter_matches, Hk. unfold filter_search.
  destruct (filter _ (todos st)) as [|x f] eqn:E; [|reflexivity].
  exfalso. apply (filter_nil_not_elem_of _ _ t E); auto.
Qed.

Lemma list_request_ok lower q st :
  ~ search_throws q st ->
  list_request lower q st
  = let data :=
      sort compare_todos (filter (fun t => matches lower q t = true) (todos st)) in
    Response 200 (Success (TodoList data (length data) (length (todos st))) None).
Proof.
  intros Hno. unfold list_request. cbn zeta. rewrite prefilter_matches.
  replace (filter (fun t => matches lower q t = true) (todos st))
    with (filter (fun t => search_matches lower q t = true)
            (filter (fun t => completed_matches q t = true
                              /\ priority_matches q t = true) (todos st))).
  2:{ rewrite list_filter_filter. apply list_filter_iff. intros t.
      rewrite matches_true. tauto. }
  set (k := filter (fun t => completed_matches q t = true
                             /\ priority_matches q t = true) (todos st)).
  assert (E : filter_search lower (p_search q) k
              = Some (filter (fun t => search_matches lower q t = true) k)).
  { unfold filter_search, search_matches.
    destruct (p_search q) as [[s|j]|] eqn:Es.
    - case_bool_decide; cbn [negb orb]; [now rewrite filter_all|reflexivity].
    - destruct k as [|x f] eqn:Ek; [reflexivity|].
      exfalso. apply Hno. split; [now exists j|]. exists x.
      assert (Hx : x ∈ k) by (rewrite Ek; apply elem_of_cons; now left).
      apply list_elem_of_filter in Hx. tauto.
    - now rewrite filter_all. }
  now rewrite E.
Qed.

Lemma sort_low_high_high a b c :
  priority a = str "low" -> priority b = str "high" ->
  priority c = str "high" -> createdAt b <> createdAt c ->
  sort compare_todos [a; b; c]
  = if createdAt c <? createdAt b then [b; c; a] else [c; b; a].
Proof.
  intros Ha Hb Hc Hne.
  assert (Va : valid_priority a) by (unfold valid_priority; rewrite Ha, !elem_of_cons; auto).
  assert (Vb : valid_priority b) by (unfold valid_priority; rewrite Hb, !elem_of_cons; auto).
  assert (Vc : valid_priority c) by (unfold valid_priority; rewrite Hc, !elem_of_cons; auto).
  assert (Hbc : not_after compare_todos b c = (createdAt c <=? createdAt b)).
  { unfold not_after. rewrite compare_todos_valid, Hb, Hc by assumption.
    rewrite bool_decide_eq_true_2 by reflexivity.
    apply eq_true_iff_eq. rewrite !Z.leb_le. lia. }
  assert (Hab : not_after compare_todos a b = false).
  { unfold not_after. rewrite compare_todos_valid, Ha, Hb by assumption.
    reflexivity. }
  assert (Hac : not_after compare_todos a c = false).
  { unfold not_after. rewrite compare_todos_valid, Ha, Hc by assumption.
    reflexivity. }
  cbn. rewrite Hbc.
  destruct (createdAt c <? createdAt b) eqn:E;
    [apply Z.ltb_lt in E|apply Z.ltb_ge in E].
  + replace (createdAt c <=? createdAt b) with true
      by (symmetry; apply Z.leb_le; lia).
    cbn. now rewrite Hab, Hac.
  + replace (createdAt c <=? createdAt b) with false
      by (symmetry; apply Z.leb_gt; lia).
    cbn. now rewrite Hac, Hab.
Qed.

Lemma initial_store_valid now : Forall valid_priority (todos (initial_store now)).
Proof.
  unfold valid_priority. cbn. repeat constructor.
Qed.

Lemma is_true_param c :
  bool_decide (QStr c = QStr (str "true")) = bool_decide (c = str "true").
Proof. apply bool_decide_ext. split; congruence. Qed.

(** On string values the handlers for every request are the handlers
    for strings. *)
Lemma list_request_strings lower q st :
  list_request lower (as_params q) st = list_todos lower q st.
Proof.
  destruct q as [c p s].
  unfold list_request, list_todos, apply_filters, as_params,
    filter_completed, filter_priority, filter_search.
  cbn [q_completed q_priority q_search p_completed p_priority p_search].
  destruct c as [c|], p as [p|], s as [s|]; cbn [fmap option_fmap option_map];
    rewrite ?is_true_param;
    repeat match goal with
           | |- context [negb ?b] => destruct b; cbn [negb andb]
           end; reflexivity.
Qed.

Lemma delete_all_request_strings q st :
  delete_all_request (as_params q) st = delete_all q st.
Proof.
  destruct q as [c p s]. unfold delete_all_request, delete_all, as_params.
  cbn [q_completed p_completed].
  destruct c as [c|]; cbn [fmap option_fmap option_map];
    rewrite ?is_true_param; reflexivity.
Qed.

(** C7, refuted as stated: a repeated [search] key reaches the handler
    as an array, the search callback throws on the first record and
    the listing of the initial store is answered 500. *)
Lemma repeated_search_answers_500 :
  list_request fold_basic_latin
    (Params None None (Some (QArr [str "a"; str "b"])))
    (initial_store sample_clock)
  = fail 500 ListFailed.
Proof. reflexivity. Qed.

(** C7, amended.  When every stored priority is one of low, medium,
    high and the search callback does not throw (the search value is
    absent or a string, or no record is left for it), the listing
    answers 200 with exactly the stored records wanted by the three
    parameters together, each as often as it is stored, ordered by
    priority weight descending and, within a weight, by createdAt
    descending.  A collection of three records with priorities low,
    high, high is listed with the two high ones first, the newer of
    them first, then the low one. *)
Theorem list_sorted_by_priority_then_newest lower :
  (forall q st,
      Forall valid_priority (todos st) ->
      ~ search_throws q st ->
      exists data,
        list_request lower q st
        = Response 200
            (Success (TodoList data (length data) (length (todos st))) None)
        /\ data ≡ₚ filter (fun t => matches lower q t = true) (todos st)
        /\ (forall t, t ∈ data <-> t ∈ todos st /\ matches lower q t = true)
        /\ StronglySorted listed_before data)
  /\ forall a b c n,
       priority a = str "low" -> priority b = str "high" ->
       priority c = str "high" -> createdAt b <> createdAt c ->
       list_request lower no_params (Store [a; b; c] n)
       = Response 200
           (Success
              (TodoList (if createdAt c <? createdAt b then [b; c; a]
                         else [c; b; a]) 3 3)
              None).
Proof.
  split.
  - intros q st Hv Hno. eexists. split; [now apply list_request_ok|].
    pose proof (sort_Permutation compare_todos
                  (filter (fun t => matches lower q t = true) (todos st)))
      as Hperm.
    split; [exact Hperm|]. split.
    + intros t. rewrite Hperm, list_elem_of_filter. tauto.
    + apply sort_StronglySorted with (P := valid_priority).
      * apply _.
      * apply not_after_listed_before.
      * apply after_listed_before.
      * eapply Forall_sublist; [apply sublist_filter|exact Hv].
  - intros a b c n Ha Hb Hc Hne.
    rewrite list_request_ok.
    + cbn zeta. cbn [todos].
      rewrite (filter_all (fun t => matches lower no_params t = true))
        by reflexivity.
      rewrite (sort_low_high_high a b c Ha Hb Hc Hne).
      now destruct (createdAt c <? createdAt b).
    + intros [[l [=]] _].
Qed.

Lemma list_sorted_by_priority_then_newest_witness :
  exists data,
    list_request fold_basic_latin
      (Params (Some (QStr (str "false"))) (Some (QStr (str "high")))
         (Some (QStr (str "API"))))
      (initial_store sample_clock)
    = Response 200 (Success (TodoList data (length data) 3) None)
    /\ (forall t, t ∈ data
                  <-> t ∈ todos (initial_store sample_clock)
                      /\ matches fold_basic_latin
                            (Params (Some (QStr (str "false")))
                               (Some (QStr (str "high")))
                               (Some (QStr (str "API")))) t = true)
    /\ StronglySorted listed_before data.
Proof.
  destruct (proj1 (list_sorted_by_priority_then_newest fold_basic_latin)
              (Params (Some (QStr (str "false"))) (Some (QStr (str "high")))
                 (Some (QStr (str "API"))))
              (initial_store sample_clock)
              (initial_store_valid sample_clock))
    as (data & E & _ & Hm & Hs).
  - intros [[l [=]] _].
  - exists data. split; [exact E|]. split; assumption.
Defined.

Example list_initial_store :
  map id (sort compare_todos (todos (initial_store sample_clock))) = [3; 1; 2].
Proof. reflexivity. Qed.

(** ** The priority filter *)

Lemma filter_none {A} (P : A -> Prop) `{forall x, Decision (P x)} (l : list A) :
  Forall (fun x => ~ P x) l -> filter P l = [].
Proof.
  induction 1 as [|x l Hx Hl IH]; [reflexivity|].
  now rewrite filter_cons_False.
Qed.

(** C3, refuted as stated: on the initial store the priority value
    ["urgent"], which is none of low, medium, high, is not bypassed;
    the listing is empty, while the listing without a priority filter
    has the three records. *)
Lemma unknown_priority_not_bypassed :
  let st := initial_store sample_clock in
  list_todos fold_basic_latin (Query None (Some (str "urgent")) None) st
  = Response 200 (Success (TodoList [] 0 3) None)
  /\ list_todos fold_basic_latin (Query None (Some (str "urgent")) None) st
     <> list_todos fold_basic_latin (Query None None None) st.
Proof. split; [reflexivity|]. vm_compute. discriminate. Qed.

(** C3, amended.  The priority filter is bypassed exactly for an
    absent value, the empty string and ["all"]: the listing then
    equals the listing without the priority parameter.  Any other
    value keeps the records whose priority is equal to it, so a value
    other than low, medium, high, the empty string and ["all"] gives
    an empty listing when every stored priority is one of the three. *)
Theorem priority_filter_bypassed_for_all_only lower c s st :
  (forall p,
      p = None \/ p = Some [] \/ p = Some (str "all") ->
      list_todos lower (Query c p s) st = list_todos lower (Query c None s) st)
  /\ forall v,
       v <> [] -> v <> str "all" ->
       apply_filters lower (Query c (Some v) s) (todos st)
       = filter (fun t => priority t = v)
           (apply_filters lower (Query c None s) (todos st))
       /\ (Forall valid_priority (todos st) ->
           v ∉ [str "low"; str "medium"; str "high"] ->
           list_todos lower (Query c (Some v) s) st
           = Response 200 (Success (TodoList [] 0 (length (todos st))) None)).
Proof.
  split.
  - intros p [-> | [-> | ->]]; reflexivity.
  - intros v Hv Hall.
    assert (E : apply_filters lower (Query c (Some v) s) (todos st)
                = filter (fun t => priority t = v)
                    (apply_filters lower (Query c None s) (todos st))).
    { unfold apply_filters. cbn [q_completed q_priority q_search].
      rewrite !bool_decide_eq_false_2 by assumption. cbn [negb andb].
      destruct s as [s|]; [destruct (negb _)|]; try reflexivity.
      rewrite !list_filter_filter. apply list_filter_iff. tauto. }
    split; [exact E|].
    intros Hvalid Hnot. unfold list_todos. rewrite E.
    replace (filter (fun t => priority t = v)
               (apply_filters lower (Query c None s) (todos st)))
      with (@nil todo); [reflexivity|].
    symmetry. apply filter_none.
    eapply Forall_sublist; [apply apply_filters_sublist|].
    eapply Forall_impl; [exact Hvalid|].
    unfold valid_priority. intros t Ht Heq. rewrite Heq in Ht. contradiction.
Qed.

Lemma priority_filter_bypassed_for_all_only_witness :
  let st := initial_store sample_clock in
  list_todos fold_basic_latin (Query None (Some (str "all")) None) st
  = list_todos fold_basic_latin (Query None None None) st
  /\ list_todos fold_basic_latin (Query None (Some (str "urgent")) None) st
     = Response 200 (Success (TodoList [] 0 (length (todos st))) None).
Proof.
  intros st.
  destruct (priority_filter_bypassed_for_all_only fold_basic_latin None None st)
    as [Hb Hf].
  split.
  - apply Hb. right. right. reflexivity.
  - apply (Hf (str "urgent")); [discriminate|discriminate| |].
    + apply initial_store_valid.
    + rewrite !elem_of_cons, elem_of_nil.
      intros [H|[H|[H|[]]]]; discriminate H.
Defined.

(** ** The invariant along a run *)

Lemma allowed_priority_Some v p :
  allowed_priority v = Some p -> p ∈ [str "low"; str "medium"; str "high"].
Proof.
  unfold allowed_priority. destruct v as [| |?|?|s|]; try discriminate.
  destruct (priority_allowed (JStr s)) eqn:E; [|discriminate].
  intros [= <-]. cbn in E. now apply bool_decide_eq_true in E.
Qed.

Lemma initial_invariant now : invariant (initial_store now).
Proof.
  split; [|split].
  - cbn.
    repeat (apply NoDup_cons_2; [rewrite ?elem_of_cons, elem_of_nil; lia|]).
    constructor.
  - cbn. repeat constructor.
  - apply initial_store_valid.
Qed.

Lemma invariant_sublist l st :
  l `sublist_of` todos st -> invariant st -> invariant (Store l (nextId st)).
Proof.
  intros Hl (Hn & Hi & Hv). split; [|split]; cbn.
  - eapply sublist_NoDup; [exact Hn|]. now apply fmap_sublist.
  - eapply Forall_sublist; eassumption.
  - eapply Forall_sublist; eassumption.
Qed.

Lemma create_invariant now b st :
  invariant st -> invariant (fst (create now b st)).
Proof.
  intros (Hn & Hi & Hv).
  destruct (create_cases now b st) as [(E & _)|(s & p & (_ & Hp) & E)].
  - rewrite E. now repeat split.
  - cbn zeta in E. rewrite E. cbn [fst]. split; [|split]; cbn.
    + rewrite fmap_app. apply NoDup_app. split; [exact Hn|]. split.
      * intros x Hx. apply list_elem_of_fmap in Hx as (t & -> & Ht).
        rewrite Forall_forall in Hi. specialize (Hi t Ht).
        cbn. rewrite list_elem_of_singleton. lia.
      * cbn. apply NoDup_singleton.
    + apply Forall_app. split.
      * eapply Forall_impl; [exact Hi|]. cbn. intros; lia.
      * apply Forall_singleton. cbn. lia.
    + apply Forall_app. split; [exact Hv|].
      apply Forall_singleton. unfold valid_priority. cbn.
      eapply allowed_priority_Some; eassumption.
Qed.

Lemma merge_valid_priority old b now :
  valid_priority old -> patch_accepted b -> valid_priority (merge old b now).
Proof.
  intros Hv (_ & Hp). unfold valid_priority, merge. cbn.
  destruct Hp as [-> | Hp]; [exact Hv|].
  destruct (f_priority b) as [| |?|?|p|]; try exact Hv.
  cbn in Hp. now apply bool_decide_eq_true in Hp.
Qed.

Lemma update_invariant now idparam b st :
  invariant st -> invariant (fst (update now idparam b st)).
Proof.
  intros (Hn & Hi & Hv).
  destruct (list_find (same_id (parseInt idparam)) (todos st)) as [[i old]|] eqn:Hf.
  - destruct (update_found now idparam b st i old Hf) as [(E & _)|(Hp & E)].
    + rewrite E. now repeat split.
    + rewrite E. cbn [fst]. apply find_same_id in Hf as (Hl & _).
      assert (Hold : id old < nextId st /\ valid_priority old).
      { rewrite Forall_forall in Hi, Hv.
        apply list_elem_of_lookup_2 in Hl. auto. }
      split; [|split]; cbn.
      * rewrite list_fmap_insert.
        change (id (merge old b now)) with (id old).
        rewrite list_insert_id; [exact Hn|].
        now rewrite list_lookup_fmap, Hl.
      * apply Forall_insert; [exact Hi|]. cbn. tauto.
      * apply Forall_insert; [exact Hv|].
        apply merge_valid_priority; tauto.
  - rewrite update_not_found by assumption. now repeat split.
Qed.

Lemma delete_one_invariant idparam st :
  invariant st -> invariant (fst (delete_one idparam st)).
Proof.
  intros H. unfold delete_one.
  destruct (list_find _ _) as [[i t]|]; cbn [fst]; [|exact H].
  apply invariant_sublist; [apply sublist_delete|exact H].
Qed.

Lemma delete_all_invariant q st :
  invariant st -> invariant (fst (delete_all q st)).
Proof.
  intros H. unfold delete_all.
  destruct (q_completed q) as [c|]; cbn [fst].
  - apply invariant_sublist; [apply sublist_filter|exact H].
  - split; [|split]; cbn; constructor.
Qed.

(** The bulk delete for a value of any shape is the bulk delete for
    some string: an array behaves as a string other than ['true']. *)
Lemma delete_all_request_eq q st :
  exists q',
    delete_all_request q st = delete_all q' st
    /\ (q_completed q' = None <-> p_completed q = None).
Proof.
  destruct q as [[[c|l]|] p s].
  - exists (Query (Some c) None None). split; [|split; discriminate].
    unfold delete_all_request, delete_all. cbn [p_completed q_completed].
    now rewrite (bool_decide_ext (QStr c = QStr (str "true")) (c = str "true"))
      by (split; congruence).
  - exists (Query (Some []) None None). split; [|split; discriminate].
    reflexivity.
  - exists no_query. split; [reflexivity|]. split; reflexivity.
Qed.

Lemma post_todo_cases now body st :
  post_todo now body st = (st, fail 500 AddFailed)
  \/ exists b, body = Some b /\ post_todo now body st = create now b st.
Proof. destruct body as [b|]; [right; eauto|now left]. Qed.

Lemma put_todo_cases now idparam body st :
  put_todo now idparam body st = (st, fail 500 UpdateFailed)
  \/ exists b, body = Some b
               /\ put_todo now idparam body st = update now idparam b st.
Proof. destruct body as [b|]; [right; eauto|now left]. Qed.

Lemma handle_invariant lower now r st :
  invariant st -> invariant (fst (handle lower now r st)).
Proof.
  intros H. unfold handle.
  destruct (first_match _ _ _) as [[[] params]|]; cbn [fst]; auto.
  - destruct (post_todo_cases now (req_body r) st) as [->|(b & _ & ->)];
      auto using create_invariant.
  - destruct (put_todo_cases now (param_id params) (req_body r) st)
      as [->|(b & _ & ->)]; auto using update_invariant.
  - now apply delete_one_invariant.
  - destruct (delete_all_request_eq (req_query r) st) as (q & -> & _).
    now apply delete_all_invariant.
Qed.

Lemma update_nextId now idparam b st :
  nextId (fst (update now idparam b st)) = nextId st.
Proof.
  destruct (list_find (same_id (parseInt idparam)) (todos st)) as [[i old]|] eqn:Hf.
  - destruct (update_found now idparam b st i old Hf) as [(E & _)|(_ & E)];
      now rewrite E.
  - now rewrite update_not_found.
Qed.

Lemma delete_one_nextId idparam st :
  nextId (fst (delete_one idparam st)) = nextId st.
Proof. unfold delete_one. now destruct (list_find _ _) as [[i t]|]. Qed.

Lemma update_status now idparam b st :
  status (snd (update now idparam b st)) <> 201.
Proof.
  destruct (list_find (same_id (parseInt idparam)) (todos st)) as [[i old]|] eqn:Hf.
  - destruct (update_found now idparam b st i old Hf)
      as [(_ & c & m & E & Hc)|(_ & E)]; rewrite E; cbn; lia.
  - now rewrite update_not_found.
Qed.

Lemma created_id_status r i : created_id r = Some i -> status r = 201.
Proof.
  destruct r as [code body]. unfold created_id. cbn.
  destruct (decide (code = 201)) as [->|Hne]; [reflexivity|].
  destruct code as [|[q|q|]|]; try discriminate.
  repeat (destruct q as [q|q|]; try discriminate); congruence.
Qed.

(** Only the create handler answers 201; it hands out the counter and
    advances it by one.  Without a reset the counter never goes down. *)
Lemma list_request_cases lower q st :
  list_request lower q st = fail 500 ListFailed
  \/ exists data,
       list_request lower q st
       = Response 200
           (Success (TodoList data (length data) (length (todos st))) None).
Proof.
  unfold list_request.
  match goal with
  | |- context [match ?x with Some _ => _ | None => fail 500 ListFailed end] =>
      destruct x
  end; [right; eauto|now left].
Qed.

Lemma handle_step lower now r st :
  (forall i, created_id (snd (handle lower now r st)) = Some i ->
             i = nextId st /\ nextId (fst (handle lower now r st)) = i + 1)
  /\ (resets_counter r = false ->
      nextId st <= nextId (fst (handle lower now r st))).
Proof.
  unfold handle, resets_counter.
  destruct (first_match _ _ _) as [[[] params]|]; cbn [fst snd].
  - split; [intros i Hi; discriminate Hi|intros _; lia].
  - split; [intros i Hi; discriminate Hi|intros _; lia].
  - split; [|intros _; lia].
    intros i Hi.
    destruct (list_request_cases lower (req_query r) st) as [E|[data E]];
      rewrite E in Hi; discriminate Hi.
  - split; [|intros _; lia].
    intros i Hi. apply created_id_status in Hi. revert Hi.
    unfold get_one. now destruct (list_find _ _) as [[j t]|].
  - destruct (post_todo_cases now (req_body r) st) as [->|(b & _ & ->)];
      [split; [intros i Hi; discriminate Hi|intros _; cbn; lia]|].
    split.
    + intros i Hi. pose proof (created_id_status _ _ Hi) as Hs.
      apply create_success in Hs as (t & E & Ht).
      rewrite E in Hi |- *. cbn in Hi |- *. injection Hi as <-. lia.
    + intros _. apply create_nextId.
  - destruct (put_todo_cases now (param_id params) (req_body r) st)
      as [->|(b & _ & ->)];
      [split; [intros i Hi; discriminate Hi|intros _; cbn; lia]|].
    split.
    + intros i Hi. apply created_id_status in Hi.
      now apply update_status in Hi.
    + intros _. rewrite update_nextId. lia.
  - split.
    + intros i Hi. apply created_id_status in Hi. revert Hi.
      unfold delete_one. now destruct (list_find _ _) as [[j t]|].
    + intros _. rewrite delete_one_nextId. lia.
  - split.
    + intros i Hi. apply created_id_status in Hi. revert Hi.
      unfold delete_all_request. now destruct (p_completed _).
    + unfold delete_all_request. destruct (p_completed _); cbn; [lia|].
      intros H. discriminate H.
  - split; [intros i Hi; discriminate Hi|intros _; lia].
  - split; [intros i Hi; discriminate Hi|intros _; lia].
Qed.

Lemma run_cons lower now r trace st :
  run lower ((now, r) :: trace) st
  = (fst (run lower trace (fst (handle lower now r st))),
     snd (handle lower now r st)
       :: snd (run lower trace (fst (handle lower now r st)))).
Proof.
  cbn [run]. destruct (handle lower now r st) as [st1 resp].
  cbn [fst snd]. now destruct (run lower trace st1).
Qed.

Lemma run_invariant lower trace st :
  invariant st -> invariant (fst (run lower trace st)).
Proof.
  revert st. induction trace as [|[now r] trace IH]; intros st H; [exact H|].
  rewrite run_cons. cbn [fst]. apply IH. now apply handle_invariant.
Qed.

Lemma run_created_ids lower trace st :
  Forall (fun e => resets_counter (snd e) = false) trace ->
  nextId st <= nextId (fst (run lower trace st))
  /\ StronglySorted Z.lt (created_ids (snd (run lower trace st)))
  /\ Forall (fun i => nextId st <= i < nextId (fst (run lower trace st)))
       (created_ids (snd (run lower trace st))).
Proof.
  revert st. induction trace as [|[now r] trace IH]; intros st Hr.
  - cbn. split; [lia|]. split; constructor.
  - apply Forall_cons in Hr as [Hr Htrace]. cbn [snd] in Hr.
    rewrite run_cons. cbn [fst snd].
    destruct (handle_step lower now r st) as [Hcreated Hmono].
    specialize (Hmono Hr).
    destruct (IH (fst (handle lower now r st)) Htrace) as (Hle & Hsorted & Hbound).
    unfold created_ids in *. cbn [omap list_omap].
    destruct (created_id (snd (handle lower now r st))) as [i|] eqn:Hi.
    + destruct (Hcreated i eq_refl) as [-> Hnext].
      split; [lia|]. split.
      * constructor; [exact Hsorted|].
        eapply Forall_impl; [exact Hbound|]. cbn. intros; lia.
      * constructor; [lia|].
        eapply Forall_impl; [exact Hbound|]. cbn. intros; lia.
    + split; [lia|]. split; [exact Hsorted|].
      eapply Forall_impl; [exact Hbound|]. cbn. intros; lia.
Qed.

(** C9.  In every state reached from the initial store by any
    sequence of requests the ids are pairwise distinct.  Along a
    sequence without the unfiltered delete-all, started in any state
    that satisfies the invariant, the ids allocated by the successful
    creates are strictly increasing, each is at least the counter at
    the start and so greater than the id of every record present at
    the start, whether or not that record is deleted later. *)
Theorem ids_unique_and_never_reused lower :
  (forall now0 trace,
      NoDup (id <$> todos (fst (run lower trace (initial_store now0)))))
  /\ forall trace st,
       invariant st ->
       Forall (fun e => resets_counter (snd e) = false) trace ->
       let st' := fst (run lower trace st) in
       let ids := created_ids (snd (run lower trace st)) in
       NoDup (id <$> todos st')
       /\ StronglySorted Z.lt ids
       /\ Forall (fun i => nextId st <= i < nextId st') ids
       /\ forall t i, t ∈ todos st -> i ∈ ids -> id t < i.
Proof.
  split.
  - intros now0 trace.
    apply (run_invariant lower trace _ (initial_invariant now0)).
  - intros trace st Hinv Hr st' ids.
    destruct (run_created_ids lower trace st Hr) as (Hle & Hsorted & Hbound).
    split; [apply (run_invariant lower trace st Hinv)|].
    split; [exact Hsorted|]. split; [exact Hbound|].
    intros t i Ht Hi.
    destruct Hinv as (_ & Hfresh & _).
    rewrite Forall_forall in Hfresh. rewrite Forall_forall in Hbound.
    specialize (Hfresh t Ht). specialize (Hbound i Hi). lia.
Qed.

Lemma ids_unique_and_never_reused_witness :
  let post s := Request POST [str "api"; str "todos"] no_params
                  (Some (Fields (JStr (str s)) JUndefined JUndefined)) in
  let trace :=
    [ (sample_clock, post "Buy milk");
      (sample_clock, Request DELETE [str "api"; str "todos"; str "4"]
                       no_params (Some no_fields));
      (sample_clock, post "Tea") ] in
  let st := initial_store sample_clock in
  created_ids (snd (run fold_basic_latin trace st)) = [4; 5]
  /\ StronglySorted Z.lt (created_ids (snd (run fold_basic_latin trace st)))
  /\ NoDup (id <$> todos (fst (run fold_basic_latin trace st))).
Proof.
  intros post trace st.
  destruct (proj2 (ids_unique_and_never_reused fold_basic_latin) trace st
              (initial_invariant sample_clock))
    as (Hn & Hs & _).
  { repeat constructor. }
  split; [reflexivity|]. split; [exact Hs|exact Hn].
Defined.

(** * Further properties of the handlers *)

(** ** Lookup after a write *)

Lemma find_below_counter n l :
  Forall (fun t => id t < n) l -> list_find (same_id (Some n)) l = None.
Proof.
  intros H. apply list_find_None.
  eapply Forall_impl; [exact H|]. unfold same_id. intros t Ht [= E]. lia.
Qed.

Lemma find_insert_same n l i t t' :
  list_find (same_id n) l = Some (i, t) ->
  id t' = id t ->
  list_find (same_id n) (<[i := t']> l) = Some (i, t').
Proof.
  intros Hf Hid. apply list_find_Some in Hf as (Hl & Hn & Hbefore).
  apply list_find_Some. split; [|split].
  - apply list_lookup_insert_eq. now apply lookup_lt_Some in Hl.
  - unfold same_id in *. now rewrite Hid.
  - intros j y Hj Hlt. rewrite list_lookup_insert_ne in Hj by lia.
    now apply (Hbefore j).
Qed.

Lemma ids_determine_record l (t t' : todo) :
  NoDup (id <$> l) -> t ∈ l -> t' ∈ l -> id t = id t' -> t = t'.
Proof.
  induction l as [|x l IH]; intros Hn Ht Ht' E.
  - now apply elem_of_nil in Ht.
  - rewrite fmap_cons in Hn. apply NoDup_cons in Hn as [Hx Hn].
    apply elem_of_cons in Ht as [->|Ht]; apply elem_of_cons in Ht' as [->|Ht'].
    + reflexivity.
    + exfalso. apply Hx. rewrite E. now apply list_elem_of_fmap_2.
    + exfalso. apply Hx. rewrite <- E. now apply list_elem_of_fmap_2.
    + now apply IH.
Qed.

Lemma find_delete_found n l i t :
  NoDup (id <$> l) ->
  list_find (same_id n) l = Some (i, t) ->
  list_find (same_id n) (delete i l) = None.
Proof.
  intros Hn Hf. apply find_same_id in Hf as (Hl & ->).
  apply list_find_None, Forall_forall. intros x Hx [= E].
  rewrite <- (take_drop_middle l i t Hl) in Hn.
  rewrite fmap_app, fmap_cons in Hn.
  apply NoDup_app in Hn as (_ & Hleft & Hright).
  apply NoDup_cons in Hright as [Hright _].
  rewrite delete_take_drop in Hx. apply elem_of_app in Hx as [Hx|Hx].
  - apply (Hleft (id t)); [rewrite E; now apply list_elem_of_fmap_2|].
    apply elem_of_cons. now left.
  - apply Hright. rewrite E. now apply list_elem_of_fmap_2.
Qed.

(** X1.  A record just created is returned by the get handler under
    any parameter that parses to its id, provided the stored ids were
    below the counter. *)
Theorem created_record_is_found now b st idparam :
  Forall (fun t => id t < nextId st) (todos st) ->
  status (snd (create now b st)) = 201 ->
  parseInt idparam = Some (nextId st) ->
  exists t,
    snd (create now b st) = Response 201 (Success (One t) (Some TodoAdded))
    /\ id t = nextId st
    /\ get_one idparam (fst (create now b st))
       = Response 200 (Success (One t) None).
Proof.
  intros Hfresh Hs Hp. apply create_success in Hs as (t & E & Ht).
  exists t. rewrite E. cbn [fst snd]. split; [reflexivity|]. split; [exact Ht|].
  unfold get_one. rewrite Hp. cbn [todos].
  rewrite list_find_app_r by now apply find_below_counter.
  cbn. rewrite decide_True by (unfold same_id; now rewrite Ht).
  reflexivity.
Qed.

Lemma created_record_is_found_witness :
  exists t,
    snd (create sample_clock (Fields (JStr (str "Tea")) JUndefined JUndefined)
           (initial_store sample_clock))
    = Response 201 (Success (One t) (Some TodoAdded))
    /\ id t = 4
    /\ get_one (str "4")
         (fst (create sample_clock (Fields (JStr (str "Tea")) JUndefined JUndefined)
                 (initial_store sample_clock)))
       = Response 200 (Success (One t) None).
Proof.
  apply (created_record_is_found sample_clock
           (Fields (JStr (str "Tea")) JUndefined JUndefined)
           (initial_store sample_clock) (str "4")).
  - cbn. repeat constructor.
  - reflexivity.
  - reflexivity.
Defined.

(** X2.  When ids are distinct, a successful delete returns the record
    the get handler returned for the same parameter, removes that
    record and no other, keeps the order and the counter, and the get
    handler answers 404 for the parameter afterwards. *)
Theorem delete_one_removes_exactly idparam st :
  NoDup (id <$> todos st) ->
  status (snd (delete_one idparam st)) = 200 ->
  exists t,
    get_one idparam st = Response 200 (Success (One t) None)
    /\ snd (delete_one idparam st)
       = Response 200 (Success (One t) (Some TodoDeleted))
    /\ (forall x, x ∈ todos (fst (delete_one idparam st))
                  <-> x ∈ todos st /\ id x <> id t)
    /\ todos (fst (delete_one idparam st)) `sublist_of` todos st
    /\ (length (todos (fst (delete_one idparam st))) + 1 = length (todos st))%nat
    /\ nextId (fst (delete_one idparam st)) = nextId st
    /\ get_one idparam (fst (delete_one idparam st)) = fail 404 TodoNotFound.
Proof.
  intros Hn Hs. unfold delete_one, get_one in *.
  destruct (list_find (same_id (parseInt idparam)) (todos st))
    as [[i t]|] eqn:Hf; [|discriminate Hs].
  exists t. cbn [fst snd todos nextId].
  pose proof (find_delete_found _ _ _ _ Hn Hf) as Hgone.
  pose proof (find_same_id _ _ _ _ Hf) as (Hl & Hid).
  split; [reflexivity|]. split; [reflexivity|].
  split; [|split; [|split; [|split]]].
  - intros x. split.
    + intros Hx. split; [now apply list_elem_of_delete_inv in Hx|].
      intros E. apply list_find_None in Hgone. rewrite Forall_forall in Hgone.
      apply (Hgone x Hx). unfold same_id. now rewrite Hid, E.
    + intros [Hx Hne]. rewrite delete_take_drop.
      rewrite <- (take_drop_middle _ _ _ Hl) in Hx.
      rewrite elem_of_app, elem_of_cons in Hx. rewrite elem_of_app.
      destruct Hx as [?|[->|?]]; [now left|contradiction|now right].
  - apply sublist_delete.
  - rewrite length_delete by eauto.
    apply lookup_lt_Some in Hl. lia.
  - reflexivity.
  - now rewrite Hgone.
Qed.

Lemma delete_one_removes_exactly_witness :
  get_one (str "2") (fst (delete_one (str "2") (initial_store sample_clock)))
  = fail 404 TodoNotFound.
Proof.
  destruct (delete_one_removes_exactly (str "2") (initial_store sample_clock))
    as (t & _ & _ & _ & _ & _ & _ & H).
  - apply initial_invariant.
  - reflexivity.
  - exact H.
Defined.

(** ** Updates *)

Lemma update_accepted now idparam b st i old :
  list_find (same_id (parseInt idparam)) (todos st) = Some (i, old) ->
  patch_accepted b ->
  update now idparam b st
  = (Store (<[i := merge old b now]> (todos st)) (nextId st),
     Response 200 (Success (One (merge old b now)) (Some TodoUpdated))).
Proof.
  intros Hf Hp.
  destruct (update_found now idparam b st i old Hf)
    as [(_ & c & m & E & Hc)|(_ & E)]; [|exact E].
  exfalso. revert E. unfold update. rewrite Hf.
  destruct Hp as [[Ht|(s & Ht & Hne & Hlen)] Hpr]; rewrite Ht.
  - destruct Hpr as [Hpr|Hpr]; rewrite Hpr; cbn; [discriminate|].
    rewrite andb_false_r. discriminate.
  - rewrite bool_decide_eq_false_2 by assumption.
    replace (100 <? Z.of_nat (length s)) with false
      by (symmetry; apply Z.ltb_ge; lia).
    destruct Hpr as [Hpr|Hpr]; rewrite Hpr; cbn; [discriminate|].
    rewrite andb_false_r. discriminate.
Qed.

Lemma merge_twice old b now : merge (merge old b now) b now = merge old b now.
Proof.
  unfold merge. cbn.
  destruct (f_text b), (f_completed b), (f_priority b); reflexivity.
Qed.

(** X3.  After a successful update the get handler returns, for the
    same parameter, the record the update answered with; repeating the
    update with the same patch and clock reading gives the same store
    and the same response. *)
Theorem update_then_get now idparam b st :
  status (snd (update now idparam b st)) = 200 ->
  exists t,
    snd (update now idparam b st)
    = Response 200 (Success (One t) (Some TodoUpdated))
    /\ get_one idparam (fst (update now idparam b st))
       = Response 200 (Success (One t) None)
    /\ update now idparam b (fst (update now idparam b st))
       = update now idparam b st.
Proof.
  intros Hs. apply update_success in Hs as (i & old & Hf & Hp & E).
  exists (merge old b now). rewrite E. cbn [fst snd].
  assert (Hf' : list_find (same_id (parseInt idparam))
                  (<[i := merge old b now]> (todos st))
                = Some (i, merge old b now))
    by (apply find_insert_same with (t := old); [exact Hf|reflexivity]).
  split; [reflexivity|]. split.
  - unfold get_one. cbn [todos]. now rewrite Hf'.
  - rewrite (update_accepted now idparam b _ i (merge old b now)) by assumption.
    cbn [todos nextId]. now rewrite merge_twice, list_insert_insert_eq.
Qed.

Lemma update_then_get_witness :
  let b := Fields (JStr (str " Learn Rocq ")) (JBool true) (JStr (str "low")) in
  let st := initial_store sample_clock in
  exists t,
    get_one (str "3") (fst (update sample_clock (str "3") b st))
    = Response 200 (Success (One t) None)
    /\ text t = str "Learn Rocq".
Proof.
  intros b st.
  destruct (update_then_get sample_clock (str "3") b st eq_refl)
    as (t & E & Hg & _).
  exists t. split; [exact Hg|].
  injection E as <-. reflexivity.
Defined.

(** X4.  Whatever the outcome, an update neither adds, removes nor
    reorders records: the list of ids, the number of records and the
    counter are as before, and every record at another position than
    the one found is untouched. *)
Theorem update_keeps_ids now idparam b st :
  id <$> todos (fst (update now idparam b st)) = id <$> todos st
  /\ createdAt <$> todos (fst (update now idparam b st)) = createdAt <$> todos st
  /\ length (todos (fst (update now idparam b st))) = length (todos st)
  /\ nextId (fst (update now idparam b st)) = nextId st
  /\ forall i old j,
       list_find (same_id (parseInt idparam)) (todos st) = Some (i, old) ->
       j <> i ->
       todos (fst (update now idparam b st)) !! j = todos st !! j.
Proof.
  destruct (list_find (same_id (parseInt idparam)) (todos st))
    as [[i old]|] eqn:Hf.
  - destruct (update_found now idparam b st i old Hf) as [(E & _)|(_ & E)].
    + rewrite E. repeat split; reflexivity.
    + rewrite E. cbn [fst todos nextId].
      apply find_same_id in Hf as (Hl & _).
      rewrite !list_fmap_insert, length_insert.
      change (id (merge old b now)) with (id old).
      change (createdAt (merge old b now)) with (createdAt old).
      rewrite !list_insert_id by (now rewrite list_lookup_fmap, Hl).
      repeat split; try reflexivity.
      intros i' old' j [= <- <-] Hj. now apply list_lookup_insert_ne.
  - rewrite update_not_found by assumption.
    repeat split; reflexivity.
Qed.

Lemma update_keeps_ids_witness :
  let b := Fields JUndefined (JBool true) JUndefined in
  let st := initial_store sample_clock in
  todos (fst (update sample_clock (str "1") b st)) !! 2%nat = todos st !! 2%nat.
Proof.
  intros b st.
  apply (proj2 (proj2 (proj2 (proj2
           (update_keeps_ids sample_clock (str "1") b st))))
           0%nat (Todo 1 (str "Node.js " ++ [48176; 50864; 44592]%N)
                    (JBool false) (str "high")
                    (sample_clock 0%nat) (sample_clock 1%nat))).
  - reflexivity.
  - lia.
Defined.

(** ** Listing *)

Lemma startsWith_spec s sub :
  startsWith s sub = true <-> exists post, s = sub ++ post.
Proof.
  revert s. induction sub as [|c sub IH]; intros s.
  - destruct s; cbn; (split; [intros _; eexists; reflexivity|reflexivity]).
  - destruct s as [|d s]; cbn; [split; [discriminate|intros [post [=]]]|].
    rewrite andb_true_iff, N.eqb_eq, IH. split.
    + intros [-> [post ->]]. now exists post.
    + intros [post [= -> ->]]. split; [reflexivity|now exists post].
Qed.

(** [includes] holds exactly of the contiguous substrings. *)
Lemma includes_spec s sub :
  includes s sub = true <-> exists pre post, s = pre ++ sub ++ post.
Proof.
  induction s as [|d s IH]; cbn [includes];
    rewrite orb_true_iff, startsWith_spec.
  - split.
    + intros [[post E]|[=]]. now exists [], post.
    + intros (pre & post & E). left.
      destruct pre; [now exists post|discriminate E].
  - rewrite IH. split.
    + intros [[post E]|(pre & post & E)].
      * now exists [], post.
      * exists (d :: pre), post. now rewrite E.
    + intros (pre & post & E). destruct pre as [|d' pre].
      * left. now exists post.
      * right. injection E as _ E. now exists pre, post.
Qed.

Lemma apply_filters_elem_of lower q l t :
  t ∈ apply_filters lower q l <-> t ∈ l /\ passes lower q t.
Proof.
  unfold apply_filters, passes.
  destruct q as [c p s]. cbn [q_completed q_priority q_search].
  assert (Hc : forall k : list todo,
             t ∈ match c with
                 | Some c => filter (fun todo => completed todo
                                       = JBool (bool_decide (c = str "true"))) k
                 | None => k
                 end
             <-> t ∈ k /\ (forall c', c = Some c' ->
                           completed t = JBool (bool_decide (c' = str "true")))).
  { intros k. destruct c as [c|].
    - rewrite list_elem_of_filter. split.
      + intros [H1 H2]. split; [exact H2|]. now intros c' [= <-].
      + intros [H1 H2]. split; [now apply H2|exact H1].
    - split; [intros H; split; [exact H|discriminate]|tauto]. }
  assert (Hp : forall k : list todo,
             t ∈ match p with
                 | Some p =>
                     if negb (bool_decide (p = []))
                        && negb (bool_decide (p = str "all"))
                     then filter (fun todo => priority todo = p) k
                     else k
                 | None => k
                 end
             <-> t ∈ k /\ (forall p', p = Some p' -> p' <> [] ->
                           p' <> str "all" -> priority t = p')).
  { intros k. destruct p as [p|].
    - repeat case_bool_decide; cbn [negb andb].
      + split; [intros H'; split; [exact H'|]|tauto].
        intros p' [= <-]. contradiction.
      + split; [intros H'; split; [exact H'|]|tauto].
        intros p' [= <-]. contradiction.
      + split; [intros H'; split; [exact H'|]|tauto].
        intros p' [= <-]. contradiction.
      + rewrite list_elem_of_filter. split.
        * intros [H1 H2]. split; [exact H2|]. now intros p' [= <-].
        * intros [H1 H2]. split; [now apply H2|exact H1].
    - split; [intros H; split; [exact H|discriminate]|tauto]. }
  assert (Hs : forall k : list todo,
             t ∈ match s with
                 | Some s =>
                     if negb (bool_decide (s = []))
                     then filter (fun todo =>
                                    includes (lower (text todo)) (lower s) = true) k
                     else k
                 | None => k
                 end
             <-> t ∈ k /\ (forall s', s = Some s' -> s' <> [] ->
                           includes (lower (text t)) (lower s') = true)).
  { intros k. destruct s as [s|].
    - case_bool_decide; cbn [negb].
      + split; [intros H'; split; [exact H'|]|tauto].
        intros s' [= <-]. contradiction.
      + rewrite list_elem_of_filter. split.
        * intros [H1 H2]. split; [exact H2|]. now intros s' [= <-].
        * intros [H1 H2]. split; [now apply H2|exact H1].
    - split; [intros H; split; [exact H|discriminate]|tauto]. }
  rewrite Hs, Hp, Hc. tauto.
Qed.

(** X5.  The listing handler has two outcomes.  When the search value
    is an array and some record is left for the search callback, it
    answers 500.  Otherwise it answers 200 with exactly the stored
    records wanted by the three parameters together (completed,
    priority, search), each as often as it is stored; [count] is the
    number of listed records, [total] the number of stored ones,
    [count] is at most [total], and without parameters the listing is
    a permutation of the whole collection. *)
Theorem list_returns_matching_records lower q st :
  (search_throws q st -> list_request lower q st = fail 500 ListFailed)
  /\ (~ search_throws q st ->
      exists data,
        list_request lower q st
        = Response 200
            (Success (TodoList data (length data) (length (todos st))) None)
        /\ data ≡ₚ filter (fun t => matches lower q t = true) (todos st)
        /\ (forall t, t ∈ data <-> t ∈ todos st /\ matches lower q t = true)
        /\ (length data <= length (todos st))%nat
        /\ (q = no_params -> data ≡ₚ todos st)).
Proof.
  split; [apply list_request_throws|].
  intros Hno. eexists. split; [now apply list_request_ok|].
  pose proof (sort_Permutation compare_todos
                (filter (fun t => matches lower q t = true) (todos st)))
    as Hperm.
  split; [exact Hperm|]. split; [|split].
  - intros t. rewrite Hperm, list_elem_of_filter. tauto.
  - rewrite Hperm. apply length_filter.
  - intros ->. rewrite Hperm. now rewrite filter_all.
Qed.

Lemma list_returns_matching_records_witness :
  list_request fold_basic_latin
    (Params None (Some (QStr (str "high"))) (Some (QArr [str "a"; str "b"])))
    (initial_store sample_clock)
  = fail 500 ListFailed
  /\ exists data,
       list_request fold_basic_latin no_params (initial_store sample_clock)
       = Response 200 (Success (TodoList data (length data) 3) None)
       /\ data ≡ₚ todos (initial_store sample_clock).
Proof.
  split.
  - apply (proj1 (list_returns_matching_records fold_basic_latin _
                    (initial_store sample_clock))).
    split; [eexists; reflexivity|].
    eexists. split; [apply list_elem_of_here|]. split; reflexivity.
  - destruct (proj2 (list_returns_matching_records fold_basic_latin no_params
                       (initial_store sample_clock)))
      as (data & E & _ & _ & _ & H).
    + intros [[l [=]] _].
    + exists data. split; [exact E|]. apply H. reflexivity.
Defined.

(** ** Stability of the listing order *)

Lemma compare_todos_same_key a b :
  priority a = priority b -> createdAt a = createdAt b ->
  not_after compare_todos a b = true.
Proof.
  intros Hp Hc. unfold not_after, compare_todos. rewrite Hp, Hc.
  rewrite bool_decide_eq_false_2 by (intros H; now apply H).
  apply Z.leb_le. lia.
Qed.

Lemma insert_sorted_filter_key (P : todo -> Prop) `{forall t, Decision (P t)} a l :
  (forall b, P b -> not_after compare_todos a b = true) ->
  filter P (insert_sorted compare_todos a l)
  = if decide (P a) then a :: filter P l else filter P l.
Proof.
  intros Hkey. induction l as [|b l IH]; cbn [insert_sorted].
  - rewrite filter_cons, filter_nil. reflexivity.
  - destruct (not_after compare_todos a b) eqn:E.
    + rewrite filter_cons. reflexivity.
    + rewrite !filter_cons, IH.
      destruct (decide (P b)) as [Hb|Hb]; [|reflexivity].
      rewrite (Hkey b Hb) in E. discriminate E.
Qed.

(** X6.  The listing order is stable: records that have the same
    priority and the same createdAt stamp, as the three seeded records
    do when the process starts within one millisecond, are listed in
    the order in which they are stored.  The statement is for stored
    priorities among the three, where the comparator is a total
    preorder and the result of the engine's sort is determined. *)
Theorem list_order_stable l p c :
  Forall valid_priority l ->
  filter (fun t => priority t = p /\ createdAt t = c) (sort compare_todos l)
  = filter (fun t => priority t = p /\ createdAt t = c) l.
Proof.
  intros _. induction l as [|a l IH]; [reflexivity|].
  cbn [sort foldr]. fold (sort compare_todos l).
  destruct (decide (priority a = p /\ createdAt a = c)) as [Ha|Ha].
  - rewrite insert_sorted_filter_key.
    + rewrite decide_True by exact Ha. rewrite filter_cons_True by exact Ha.
      now rewrite IH.
    + intros b [Hb1 Hb2]. destruct Ha as [Ha1 Ha2].
      apply compare_todos_same_key; congruence.
  - rewrite filter_cons_False by exact Ha. rewrite <- IH.
    clear IH. induction (sort compare_todos l) as [|b k IHk]; cbn [insert_sorted].
    + now rewrite filter_cons_False, filter_nil by exact Ha.
    + destruct (not_after compare_todos a b).
      * now rewrite filter_cons_False by exact Ha.
      * rewrite !filter_cons, IHk. reflexivity.
Qed.

Lemma list_order_stable_witness :
  let now : clock := fun _ => 1700000000000 in
  let same t := priority t = str "high" /\ createdAt t = 1700000000000 in
  filter same (sort compare_todos (todos (initial_store now)))
  = filter same (todos (initial_store now)).
Proof.
  intros now same.
  apply (list_order_stable (todos (initial_store now)) (str "high")
           1700000000000 (initial_store_valid now)).
Defined.

(** ** Trimming *)

Lemma trimStart_length s : (length (trimStart s) <= length s)%nat.
Proof.
  induction s as [|c s IH]; cbn; [lia|].
  destruct (is_whitespace c); cbn; lia.
Qed.

Lemma trimStart_idem s : trimStart (trimStart s) = trimStart s.
Proof.
  induction s as [|c s IH]; [reflexivity|]. cbn.
  destruct (is_whitespace c) eqn:E; [exact IH|]. cbn. now rewrite E.
Qed.

Lemma trimStart_suffix s : exists w, s = w ++ trimStart s.
Proof.
  induction s as [|c s [w IH]]; [now exists []|]. cbn.
  destruct (is_whitespace c).
  - exists (c :: w). cbn. now rewrite <- IH.
  - now exists [].
Qed.

Lemma trimEnd_length s : (length (trimEnd s) <= length s)%nat.
Proof.
  unfold trimEnd. rewrite length_rev.
  etransitivity; [apply trimStart_length|]. now rewrite length_rev.
Qed.

Lemma trimEnd_idem s : trimEnd (trimEnd s) = trimEnd s.
Proof. unfold trimEnd. now rewrite rev_involutive, trimStart_idem. Qed.

Lemma trimEnd_prefix s : exists w, s = trimEnd s ++ w.
Proof.
  unfold trimEnd. destruct (trimStart_suffix (rev s)) as [w E].
  exists (rev w). rewrite <- rev_app_distr, <- E. now rewrite rev_involutive.
Qed.

Lemma trimStart_trimEnd s :
  trimStart s = s -> trimStart (trimEnd s) = trimEnd s.
Proof.
  intros Hs. destruct (trimEnd_prefix s) as [w E].
  destruct (trimEnd s) as [|c r]; [reflexivity|].
  cbn. destruct (is_whitespace c) eqn:Hc; [|reflexivity].
  exfalso. rewrite E in Hs. cbn in Hs. rewrite Hc in Hs.
  pose proof (trimStart_length (r ++ w)) as Hlen.
  rewrite Hs in Hlen. cbn in Hlen. lia.
Qed.

Lemma trim_idem s : trim (trim s) = trim s.
Proof.
  unfold trim.
  rewrite (trimStart_trimEnd (trimStart s)) by apply trimStart_idem.
  apply trimEnd_idem.
Qed.

Lemma trim_length s : (length (trim s) <= length s)%nat.
Proof.
  unfold trim. etransitivity; [apply trimEnd_length|apply trimStart_length].
Qed.

(** ** The data model in every reachable state *)

Lemma create_stored_text now b st :
  status (snd (create now b st)) = 201 ->
  exists s p,
    trim s <> [] /\ (length s <= 100)%nat
    /\ create now b st
       = (Store (todos st
                 ++ [Todo (nextId st) (trim s) (JBool false) p
                       (now 0%nat) (now 1%nat)])
            (nextId st + 1),
          Response 201
            (Success (One (Todo (nextId st) (trim s) (JBool false) p
                             (now 0%nat) (now 1%nat)))
               (Some TodoAdded))).
Proof.
  unfold create.
  destruct (truthy (f_text b)); cbn [negb]; [|discriminate].
  destruct (f_text b) as [| |?|?|s|]; try discriminate.
  case_bool_decide as Ht; [discriminate|].
  destruct (100 <? _) eqn:Hl; [discriminate|].
  destruct (allowed_priority _) as [p|]; [|discriminate].
  intros _. exists s, p. apply Z.ltb_ge in Hl.
  split; [exact Ht|]. split; [lia|reflexivity].
Qed.

Lemma texts_and_ids_kept lower now r st :
  1 <= nextId st /\ Forall (fun t => 0 < id t /\ text_ok t) (todos st) ->
  1 <= nextId (fst (handle lower now r st))
  /\ Forall (fun t => 0 < id t /\ text_ok t) (todos (fst (handle lower now r st))).
Proof.
  intros [Hn Hl]. unfold handle.
  destruct (first_match _ _ _) as [[[] params]|]; cbn [fst]; try (split; assumption).
  - destruct (post_todo_cases now (req_body r) st) as [->|(b & _ & ->)];
      [now split|].
    destruct (create_cases now b st) as [(E & _)|(s & p & _ & E)].
    + rewrite E. now split.
    + assert (Hs : status (snd (create now b st)) = 201)
        by (cbn zeta in E; now rewrite E).
      apply create_stored_text in Hs as (s' & p' & Ht & Hlen & E').
      rewrite E'. cbn [fst todos nextId]. split; [lia|].
      apply Forall_app. split; [exact Hl|]. apply Forall_singleton.
      cbn. split; [lia|]. unfold text_ok. cbn.
      split; [exact Ht|]. split; [|apply trim_idem].
      etransitivity; [apply trim_length|exact Hlen].
  - destruct (put_todo_cases now (param_id params) (req_body r) st)
      as [->|(b & _ & ->)]; [now split|].
    destruct (list_find (same_id (parseInt (param_id params))) (todos st))
      as [[i old]|] eqn:Hf.
    + destruct (update_found now (param_id params) b st i old Hf)
        as [(E & _)|(Hp & E)].
      * rewrite E. now split.
      * rewrite E. cbn [fst todos nextId]. split; [exact Hn|].
        apply find_same_id in Hf as (Hi & _).
        apply list_elem_of_lookup_2 in Hi.
        rewrite Forall_forall in Hl. destruct (Hl old Hi) as (Hid & Hne & Hlen & Htr).
        apply Forall_insert; [now apply Forall_forall|].
        split; [exact Hid|]. unfold text_ok, merge. cbn.
        destruct Hp as [[Ht|(s & Ht & Hs1 & Hs2)] _]; rewrite Ht.
        -- now repeat split.
        -- split; [exact Hs1|]. split; [|apply trim_idem].
           etransitivity; [apply trim_length|exact Hs2].
    + rewrite update_not_found by assumption. now split.
  - unfold delete_one. destruct (list_find _ _) as [[i t]|]; cbn; [|now split].
    split; [exact Hn|]. eapply Forall_sublist; [apply sublist_delete|exact Hl].
  - unfold delete_all_request. destruct (p_completed _); cbn.
    + split; [exact Hn|]. eapply Forall_sublist; [apply sublist_filter|exact Hl].
    + split; [lia|constructor].
Qed.

(** X8.  In every state reached from the initial store by any
    sequence of requests, the counter is at least 1 and every stored
    record has a positive id, a non-empty trimmed text of at most 100
    code units and a priority among low, medium, high. *)
Theorem reachable_records_well_formed lower now0 trace :
  1 <= nextId (fst (run lower trace (initial_store now0)))
  /\ Forall record_ok (todos (fst (run lower trace (initial_store now0)))).
Proof.
  assert (H : forall st,
             1 <= nextId st /\ Forall (fun t => 0 < id t /\ text_ok t) (todos st) ->
             1 <= nextId (fst (run lower trace st))
             /\ Forall (fun t => 0 < id t /\ text_ok t)
                  (todos (fst (run lower trace st)))).
  { induction trace as [|[now r] trace IH]; intros st Hst; [exact Hst|].
    rewrite run_cons. cbn [fst]. apply IH. now apply texts_and_ids_kept. }
  destruct (H (initial_store now0)) as [Hn Hl].
  { split; [cbn; lia|]. cbn.
    repeat (apply Forall_cons; split;
            [split; [cbn; lia|unfold text_ok; cbn; repeat split; try lia; discriminate]|]).
    constructor. }
  split; [exact Hn|].
  pose proof (run_invariant lower trace _ (initial_invariant now0)) as (_ & _ & Hv).
  rewrite Forall_forall in Hl, Hv |- *.
  intros t Ht. destruct (Hl t Ht) as [? ?]. unfold record_ok. auto.
Qed.

(** ** Requests that leave the store alone *)

Lemma get_routes path h params :
  first_match routes GET path = Some (h, params) ->
  h = RootInfo \/ h = HealthCheck \/ h = ListTodos \/ h = GetTodo.
Proof.
  intros E. destruct h; auto; exfalso;
    try (now apply stats_handler_unreachable in E);
    revert E; unfold routes; cbv [first_match];
    repeat first [ rewrite bool_decide_eq_true_2 by reflexivity
                 | rewrite bool_decide_eq_false_2 by discriminate ];
    repeat match goal with
           | |- context [match_path ?pat path] =>
               destruct (match_path pat path)
           end; congruence.
Qed.

(** X9.  A request answered with an error status (400 or above)
    leaves the records and the counter exactly as they were, and so
    does every [GET] request, whatever its path, query and body. *)
Theorem errors_and_reads_keep_store lower now r st :
  (400 <= status (snd (handle lower now r st)) ->
   fst (handle lower now r st) = st)
  /\ (req_method r = GET -> fst (handle lower now r st) = st).
Proof.
  split.
  - unfold handle.
    destruct (first_match _ _ _) as [[[] params]|]; cbn [fst snd]; try reflexivity.
    + destruct (post_todo_cases now (req_body r) st) as [->|(b & _ & ->)];
        [reflexivity|].
      destruct (create_cases now b st) as [(E & _)|(s & p & _ & E)].
      * now rewrite E.
      * cbn zeta in E. rewrite E. cbn. lia.
    + destruct (put_todo_cases now (param_id params) (req_body r) st)
        as [->|(b & _ & ->)]; [reflexivity|].
      destruct (list_find (same_id (parseInt (param_id params))) (todos st))
        as [[i old]|] eqn:Hf.
      * destruct (update_found now (param_id params) b st i old Hf)
          as [(E & _)|(_ & E)]; [now rewrite E|].
        rewrite E. cbn. lia.
      * now rewrite update_not_found.
    + unfold delete_one. destruct (list_find _ _) as [[i t]|]; cbn; [lia|reflexivity].
    + unfold delete_all_request. destruct (p_completed _); cbn; lia.
  - intros Hm. unfold handle. rewrite Hm.
    destruct (first_match routes GET (req_path r)) as [[h params]|] eqn:E;
      [|reflexivity].
    apply get_routes in E as [->|[->|[->| ->]]]; reflexivity.
Qed.

Lemma errors_and_reads_keep_store_witness :
  let st := initial_store sample_clock in
  fst (handle fold_basic_latin sample_clock
         (Request DELETE [str "api"; str "todos"; str "9"] no_params
            (Some no_fields)) st)
  = st
  /\ fst (handle fold_basic_latin sample_clock
            (Request GET [str "api"; str "todos"] no_params
               (Some (Fields (JStr (str "x")) JUndefined JUndefined))) st)
     = st.
Proof.
  intros st. split.
  - apply (proj1 (errors_and_reads_keep_store fold_basic_latin sample_clock _ st)).
    vm_compute. discriminate.
  - apply (proj2 (errors_and_reads_keep_store fold_basic_latin sample_clock _ st)).
    reflexivity.
Defined.

(** ** Bulk delete and listing *)

Lemma apply_filters_nil lower q : apply_filters lower q [] = [].
Proof.
  unfold apply_filters.
  destruct (q_search q) as [s|]; [destruct (negb _)|];
    (destruct (q_priority q) as [p|]; [destruct (negb _ && negb _)|]);
    (destruct (q_completed q) as [c|]); reflexivity.
Qed.

(** X10.  After a bulk delete with a [completed] parameter, a listing
    with the same [completed] parameter is empty, whatever its other
    filters; its [total] is the number of records that were kept. *)
Theorem delete_matching_then_list lower c p s p' s' st :
  let st' := fst (delete_all (Query (Some c) p' s') st) in
  list_todos lower (Query (Some c) p s) st'
  = Response 200 (Success (TodoList [] 0 (length (todos st'))) None).
Proof.
  intros st'. unfold list_todos.
  replace (apply_filters lower (Query (Some c) p s) (todos st')) with (@nil todo);
    [reflexivity|].
  symmetry. subst st'. unfold delete_all. cbn [q_completed fst todos].
  set (b := bool_decide (c = str "true")).
  assert (E : filter (fun todo => completed todo = JBool b)
                (filter (fun todo => completed todo <> JBool b) (todos st)) = []).
  { apply filter_none. apply Forall_forall.
    intros t Ht. now apply list_elem_of_filter in Ht as [Ht _]. }
  unfold apply_filters at 1. cbn [q_completed q_priority q_search].
  fold b. rewrite E.
  exact (apply_filters_nil lower (Query None p s)).
Qed.

(** ** A [completed] value that is not a boolean *)

(** X12.  The update handler stores any [completed] value it is given.
    A record whose [completed] is not a boolean is listed under no
    [completed] filter and survives every bulk delete that has a
    [completed] parameter. *)
Theorem non_boolean_completed lower t st :
  t ∈ todos st ->
  (forall b, completed t <> JBool b) ->
  forall c p s,
    (forall data n m,
        list_todos lower (Query (Some c) p s) st
        = Response 200 (Success (TodoList data n m) None) ->
        t ∉ data)
    /\ t ∈ todos (fst (delete_all (Query (Some c) p s) st)).
Proof.
  intros Ht Hb c p s. split.
  - intros data n m E. unfold list_todos in E. injection E as <- _ _.
    rewrite sort_Permutation, apply_filters_elem_of.
    intros [_ (Hc & _)]. apply (Hb _ (Hc c eq_refl)).
  - unfold delete_all. cbn [q_completed fst todos].
    apply list_elem_of_filter. split; [apply Hb|exact Ht].
Qed.

Lemma non_boolean_completed_witness :
  let st := fst (update sample_clock (str "2")
                   (Fields JUndefined (JStr (str "yes")) JUndefined)
                   (initial_store sample_clock)) in
  let t := Todo 2 (str "Express " ++ [49436; 48260; 32; 47564; 46308; 44592]%N)
             (JStr (str "yes")) (str "medium")
             (sample_clock 2%nat) (sample_clock 0%nat) in
  t ∈ todos (fst (delete_all (Query (Some (str "true")) None None) st))
  /\ t ∈ todos (fst (delete_all (Query (Some (str "false")) None None) st)).
Proof.
  intros st t.
  assert (Ht : t ∈ todos st).
  { apply list_elem_of_lookup. exists 1%nat. reflexivity. }
  assert (Hb : forall b, completed t <> JBool b) by (intros b; discriminate).
  split.
  - apply (proj2 (non_boolean_completed fold_basic_latin t st Ht Hb
                    (str "true") None None)).
  - apply (proj2 (non_boolean_completed fold_basic_latin t st Ht Hb
                    (str "false") None None)).
Defined.

Lemma delete_matching_then_list_example :
  list_todos fold_basic_latin (Query (Some (str "false")) None None)
    (fst (delete_all (Query (Some (str "false")) None None)
            (initial_store sample_clock)))
  = Response 200 (Success (TodoList [] 0 1) None).
Proof. apply delete_matching_then_list. Qed.

(** X13.  When every [completed] is a boolean, deleting the completed
    records and then the others empties the collection but, unlike the
    bulk delete without a parameter, keeps the counter. *)
Theorem two_filtered_deletes_keep_counter p s p' s' st :
  Forall (fun t => exists b, completed t = JBool b) (todos st) ->
  let st1 := fst (delete_all (Query (Some (str "true")) p s) st) in
  let st2 := fst (delete_all (Query (Some (str "false")) p' s') st1) in
  todos st2 = [] /\ nextId st2 = nextId st.
Proof.
  intros Hb st1 st2. subst st1 st2. unfold delete_all.
  cbn [q_completed fst todos nextId]. split; [|reflexivity].
  change (bool_decide (str "true" = str "true")) with true.
  change (bool_decide (str "false" = str "true")) with false.
  rewrite list_filter_filter. apply filter_none.
  eapply Forall_impl; [exact Hb|]. cbn.
  intros t [[] E] [H1 H2]; congruence.
Qed.

Lemma two_filtered_deletes_keep_counter_witness :
  let st := initial_store sample_clock in
  let st1 := fst (delete_all (Query (Some (str "true")) None None) st) in
  let st2 := fst (delete_all (Query (Some (str "false")) None None) st1) in
  todos st2 = [] /\ nextId st2 = 4.
Proof.
  apply (two_filtered_deletes_keep_counter None None None None
           (initial_store sample_clock)).
  cbn. repeat constructor; eexists; reflexivity.
Defined.

(** ** The counter along a run *)

Lemma handle_counter lower now r st :
  resets_counter r = false ->
  nextId (fst (handle lower now r st))
  = nextId st
    + match created_id (snd (handle lower now r st)) with
      | Some _ => 1
      | None => 0
      end.
Proof.
  intros Hr.
  destruct (handle_step lower now r st) as [Hcreated _].
  destruct (created_id (snd (handle lower now r st))) as [i|] eqn:Hi.
  - destruct (Hcreated i eq_refl) as [-> ->]. reflexivity.
  - clear Hcreated. revert Hr Hi. unfold handle, resets_counter.
    destruct (first_match _ _ _) as [[[] params]|]; cbn [fst snd];
      intros Hr Hi; try lia.
    + destruct (post_todo_cases now (req_body r) st) as [E0|(b & _ & E0)];
        rewrite E0 in Hi |- *; [cbn; lia|].
      destruct (create_cases now b st) as [(E & _)|(s & p & _ & E)].
      * rewrite E. lia.
      * cbn zeta in E. rewrite E in Hi. discriminate Hi.
    + destruct (put_todo_cases now (param_id params) (req_body r) st)
        as [->|(b & _ & ->)]; [cbn; lia|].
      rewrite update_nextId. lia.
    + rewrite delete_one_nextId. lia.
    + unfold delete_all_request.
      destruct (p_completed _); cbn; [lia|discriminate Hr].
Qed.

(** X11.  Along a sequence of requests without the bulk delete that
    has no [completed] parameter, the counter advances by exactly the
    number of successful creates; no other request moves it. *)
Theorem counter_counts_creates lower trace st :
  Forall (fun e => resets_counter (snd e) = false) trace ->
  nextId (fst (run lower trace st))
  = nextId st + Z.of_nat (length (created_ids (snd (run lower trace st)))).
Proof.
  revert st. induction trace as [|[now r] trace IH]; intros st Hr.
  - cbn. lia.
  - apply Forall_cons in Hr as [Hr Htrace]. cbn [snd] in Hr.
    rewrite run_cons. cbn [fst snd].
    rewrite (IH _ Htrace), (handle_counter lower now r st Hr).
    unfold created_ids. cbn [omap list_omap].
    destruct (created_id (snd (handle lower now r st))); cbn [length]; lia.
Qed.

Lemma counter_counts_creates_witness :
  let post s := Request POST [str "api"; str "todos"] no_params
                  (Some (Fields (JStr (str s)) JUndefined JUndefined)) in
  let trace :=
    [ (sample_clock, post "Buy milk");
      (sample_clock, post "   ");
      (sample_clock, Request DELETE [str "api"; str "todos"]
                       (Params (Some (QStr (str "true"))) None None)
                       (Some no_fields));
      (sample_clock, post "Tea") ] in
  nextId (fst (run fold_basic_latin trace (initial_store sample_clock)))
  = 4 + Z.of_nat (length (created_ids
                            (snd (run fold_basic_latin trace
                                    (initial_store sample_clock))))).
Proof.
  intros post trace.
  apply (counter_counts_creates fold_basic_latin trace (initial_store sample_clock)).
  repeat constructor.
Defined.

(** ** The creation stamp *)

Lemma handle_records_origin lower now r st t' :
  t' ∈ todos (fst (handle lower now r st)) ->
  (exists t, t ∈ todos st /\ id t = id t' /\ createdAt t = createdAt t')
  \/ id t' = nextId st.
Proof.
  assert (Hsame : t' ∈ todos st ->
                  (exists t, t ∈ todos st /\ id t = id t'
                             /\ createdAt t = createdAt t')
                  \/ id t' = nextId st) by (intros H; left; eauto).
  unfold handle.
  destruct (first_match _ _ _) as [[[] params]|]; cbn [fst]; try exact Hsame.
  - destruct (post_todo_cases now (req_body r) st) as [->|(b & _ & ->)];
      [exact Hsame|].
    destruct (create_cases now b st) as [(E & _)|(s & p & _ & E)].
    + now rewrite E.
    + cbn zeta in E. rewrite E. cbn [fst todos].
      rewrite elem_of_app, list_elem_of_singleton.
      intros [H| ->]; [now apply Hsame|now right].
  - destruct (put_todo_cases now (param_id params) (req_body r) st)
      as [->|(b & _ & ->)]; [exact Hsame|].
    destruct (list_find (same_id (parseInt (param_id params))) (todos st))
      as [[i old]|] eqn:Hf.
    + destruct (update_found now (param_id params) b st i old Hf)
        as [(E & _)|(_ & E)]; [now rewrite E|].
      rewrite E. cbn [fst todos]. intros H.
      apply list_elem_of_lookup in H as [j Hj].
      apply find_same_id in Hf as (Hl & _).
      destruct (decide (j = i)) as [->|Hne].
      * rewrite list_lookup_insert_eq in Hj by (now apply lookup_lt_Some in Hl).
        injection Hj as <-. left. exists old.
        split; [now apply list_elem_of_lookup_2 in Hl|]. now split.
      * rewrite list_lookup_insert_ne in Hj by congruence.
        apply Hsame. now apply list_elem_of_lookup_2 in Hj.
    + now rewrite update_not_found.
  - unfold delete_one. destruct (list_find _ _) as [[i t]|]; cbn; [|exact Hsame].
    intros H. apply list_elem_of_delete_inv in H. now apply Hsame.
  - unfold delete_all_request. destruct (p_completed _); cbn.
    + intros H. apply Hsame. now apply list_elem_of_filter in H.
    + intros H. now apply elem_of_nil in H.
Qed.

(** X14.  No single request changes the creation stamp of a record:
    when the store satisfies the invariant, a record found after the
    request with the id of a record stored before it has that
    record's [createdAt]. *)
Theorem created_stamp_kept lower now r st t t' :
  invariant st ->
  t ∈ todos st ->
  t' ∈ todos (fst (handle lower now r st)) ->
  id t' = id t ->
  createdAt t' = createdAt t.
Proof.
  intros (Hn & Hfresh & _) Ht Ht' Hid.
  apply handle_records_origin in Ht' as [(t'' & Hin & Hid' & Hc)|Hnew].
  - rewrite <- Hc. f_equal.
    apply (ids_determine_record (todos st)); [assumption..|congruence].
  - rewrite Forall_forall in Hfresh. specialize (Hfresh t Ht). lia.
Qed.

Lemma created_stamp_kept_witness :
  let st := initial_store sample_clock in
  let now : clock := fun n => sample_clock (20 + n)%nat in
  let r := Request PUT [str "api"; str "todos"; str "2"] no_params
             (Some (Fields (JStr (str "Express 5")) (JBool false)
                      (JStr (str "low")))) in
  let t' := Todo 2 (str "Express 5") (JBool false) (str "low")
              (sample_clock 2%nat) (sample_clock 20%nat) in
  createdAt t' = sample_clock 2%nat.
Proof.
  intros st now r t'.
  apply (created_stamp_kept fold_basic_latin now r st
           (Todo 2 (str "Express " ++ [49436; 48260; 32; 47564; 46308; 44592]%N)
              (JBool true) (str "medium") (sample_clock 2%nat) (sample_clock 3%nat))
           t').
  - apply initial_invariant.
  - apply list_elem_of_lookup. exists 1%nat. reflexivity.
  - apply list_elem_of_lookup. exists 1%nat. reflexivity.
  - reflexivity.
Defined.

(** ** Statistics *)

Lemma priority_counts_add_up l :
  Forall valid_priority l ->
  (length (filter (fun t => priority t = str "high") l)
   + length (filter (fun t => priority t = str "medium") l)
   + length (filter (fun t => priority t = str "low") l)
   = length l)%nat.
Proof.
  induction 1 as [|t l Ht Hl IH]; [reflexivity|].
  rewrite !filter_cons. unfold valid_priority in Ht.
  rewrite !elem_of_cons, elem_of_nil in Ht.
  destruct Ht as [->|[->|[->|[]]]];
    repeat case_decide; try discriminate; try congruence; cbn [length]; lia.
Qed.

(** X7.  The statistics handler does not touch the store and its
    numbers are consistent: [total] is the number of records,
    [completed] lies between 0 and [total], [active] is the rest, the
    rate of an empty collection is 0 and, when every priority is one of
    the three, the three priority counts add up to [total]. *)
Theorem stats_consistent st :
  exists s,
    get_stats st = Response 200 (Success (StatsData s) None)
    /\ total s = Z.of_nat (length (todos st))
    /\ 0 <= n_completed s <= total s
    /\ n_completed s + active s = total s
    /\ 0 <= high s /\ 0 <= medium s /\ 0 <= low s
    /\ high s + medium s + low s <= 3 * total s
    /\ (todos st = [] -> completionRate s = 0)
    /\ (Forall valid_priority (todos st) ->
        high s + medium s + low s = total s).
Proof.
  eexists. split; [reflexivity|].
  cbn [total n_completed active high medium low completionRate].
  pose proof (length_filter (fun t => truthy (completed t) = true) (todos st)).
  pose proof (length_filter (fun t => priority t = str "high") (todos st)).
  pose proof (length_filter (fun t => priority t = str "medium") (todos st)).
  pose proof (length_filter (fun t => priority t = str "low") (todos st)).
  split; [reflexivity|]. split; [lia|]. split; [lia|].
  split; [lia|]. split; [lia|]. split; [lia|]. split; [lia|]. split.
  - intros ->. reflexivity.
  - intros Hv. apply priority_counts_add_up in Hv. lia.
Qed.

Lemma stats_consistent_witness :
  exists s,
    get_stats (initial_store sample_clock)
    = Response 200 (Success (StatsData s) None)
    /\ high s + medium s + low s = total s.
Proof.
  destruct (stats_consistent (initial_store sample_clock))
    as (s & E & _ & _ & _ & _ & _ & _ & _ & _ & H).
  exists s. split; [exact E|]. apply H, initial_store_valid.
Defined.

(** ** The update stamp *)

Lemma handle_stamp_origin lower now r st t' :
  t' ∈ todos (fst (handle lower now r st)) ->
  t' ∈ todos st \/ updatedAt t' = now 0%nat \/ updatedAt t' = now 1%nat.
Proof.
  unfold handle.
  destruct (first_match _ _ _) as [[[] params]|]; cbn [fst]; try tauto.
  - destruct (post_todo_cases now (req_body r) st) as [->|(b & _ & ->)];
      [tauto|].
    destruct (create_cases now b st) as [(E & _)|(s & p & _ & E)].
    + rewrite E. tauto.
    + cbn zeta in E. rewrite E. cbn [fst todos].
      rewrite elem_of_app, list_elem_of_singleton.
      intros [H| ->]; [now left|now right; right].
  - destruct (put_todo_cases now (param_id params) (req_body r) st)
      as [->|(b & _ & ->)]; [tauto|].
    destruct (list_find (same_id (parseInt (param_id params))) (todos st))
      as [[i old]|] eqn:Hf.
    + destruct (update_found now (param_id params) b st i old Hf)
        as [(E & _)|(_ & E)]; [rewrite E; tauto|].
      rewrite E. cbn [fst todos]. intros H.
      apply list_elem_of_lookup in H as [j Hj].
      apply find_same_id in Hf as (Hl & _).
      destruct (decide (j = i)) as [->|Hne].
      * rewrite list_lookup_insert_eq in Hj by (now apply lookup_lt_Some in Hl).
        injection Hj as <-. right. now left.
      * rewrite list_lookup_insert_ne in Hj by congruence.
        left. now apply list_elem_of_lookup_2 in Hj.
    + rewrite update_not_found by assumption. tauto.
  - unfold delete_one. destruct (list_find _ _) as [[i t]|]; cbn; [|tauto].
    intros H. left. now apply list_elem_of_delete_inv in H.
  - unfold delete_all_request. destruct (p_completed _); cbn.
    + intros H. left. now apply list_elem_of_filter in H.
    + intros H. now apply elem_of_nil in H.
Qed.

(** No stored update stamp is later than the last clock reading. *)
Lemma run_stamps lower trace t st :
  Forall (fun x => updatedAt x <= t) (todos st) ->
  clocks_in_order t trace ->
  Forall (fun x => updatedAt x <= last_reading t trace)
    (todos (fst (run lower trace st))).
Proof.
  revert t st. induction trace as [|[now r] trace IH]; intros t st Hst Hc.
  - exact Hst.
  - destruct Hc as (H0 & H1 & Hc). rewrite run_cons. cbn [fst last_reading].
    apply IH; [|exact Hc]. apply Forall_forall. intros x Hx.
    apply handle_stamp_origin in Hx as [Hx|[->| ->]]; [|lia..].
    rewrite Forall_forall in Hst. specialize (Hst x Hx). lia.
Qed.

Lemma initial_stamps now0 :
  start_in_order now0 ->
  Forall (fun x => updatedAt x <= now0 5%nat) (todos (initial_store now0)).
Proof.
  intros (H0 & H1 & H2 & H3 & H4). cbn.
  repeat (apply Forall_cons; split; [cbn; lia|]). constructor.
Qed.

(** C8.  For a record found by its id, an update whose patch holds
    only [completed: true] succeeds, keeps text, priority, id and
    createdAt, sets completed to [true] and stamps updatedAt with the
    clock reading; in every state reached from the initial store while
    the clock does not go back, that stamp is at least the prior one.
    Every other record is untouched.  Every successful update replaces
    the record by the merge of the patch: fields absent from the patch
    keep their values, id and createdAt always do. *)
Theorem update_merges_patch now idparam st i old :
  list_find (same_id (parseInt idparam)) (todos st) = Some (i, old) ->
  (let b := Fields JUndefined (JBool true) JUndefined in
   let new := merge old b now in
   update now idparam b st
   = (Store (<[i := new]> (todos st)) (nextId st),
      Response 200 (Success (One new) (Some TodoUpdated)))
   /\ text new = text old /\ priority new = priority old
   /\ id new = id old /\ createdAt new = createdAt old
   /\ completed new = JBool true
   /\ updatedAt new = now 0%nat
   /\ (forall lower now0 trace,
         st = fst (run lower trace (initial_store now0)) ->
         start_in_order now0 ->
         clocks_in_order (now0 5%nat) trace ->
         last_reading (now0 5%nat) trace <= now 0%nat ->
         updatedAt new >= updatedAt old)
   /\ <[i := new]> (todos st) !! i = Some new
   /\ forall j, j <> i -> <[i := new]> (todos st) !! j = todos st !! j)
  /\
  (forall b,
      status (snd (update now idparam b st)) = 200 ->
      let new := merge old b now in
      update now idparam b st
      = (Store (<[i := new]> (todos st)) (nextId st),
         Response 200 (Success (One new) (Some TodoUpdated)))
      /\ id new = id old /\ createdAt new = createdAt old
      /\ updatedAt new = now 0%nat
      /\ (f_text b = JUndefined -> text new = text old)
      /\ (forall s, f_text b = JStr s -> text new = trim s)
      /\ (f_completed b = JUndefined -> completed new = completed old)
      /\ (f_completed b <> JUndefined -> completed new = f_completed b)
      /\ (f_priority b = JUndefined -> priority new = priority old)
      /\ (forall p, f_priority b = JStr p -> priority new = p)).
Proof.
  intros Hf. pose proof (find_same_id _ _ _ _ Hf) as (Hl & _). split.
  - cbn zeta. unfold update. rewrite Hf. cbn.
    split; [reflexivity|]. do 6 (split; [reflexivity|]).
    split; [|split].
    + intros lower now0 trace -> Hstart Hclocks Hlast.
      pose proof (run_stamps lower trace _ _ (initial_stamps now0 Hstart) Hclocks)
        as Hstamps.
      rewrite Forall_forall in Hstamps.
      apply list_elem_of_lookup_2 in Hl. specialize (Hstamps old Hl). lia.
    + apply list_lookup_insert_eq. now apply lookup_lt_Some in Hl.
    + intros j Hj. now apply list_lookup_insert_ne.
  - intros b H new.
    apply update_success in H as (i' & old' & Hf' & _ & E).
    rewrite Hf in Hf'. injection Hf' as <- <-.
    split; [exact E|]. subst new. unfold merge. cbn.
    repeat split.
    + now intros ->.
    + now intros s ->.
    + now intros ->.
    + destruct (f_completed b); congruence.
    + now intros ->.
    + now intros p ->.
Qed.

Lemma update_merges_patch_witness :
  let later k : clock := fun n => sample_clock (k + n)%nat in
  let trace :=
    [ (later 10%nat,
       Request PUT [str "api"; str "todos"; str "1"] no_params
         (Some (Fields (JStr (str "Learn Node")) JUndefined JUndefined))) ] in
  let st := fst (run fold_basic_latin trace (initial_store sample_clock)) in
  let old := Todo 1 (str "Learn Node") (JBool false) (str "high")
               (sample_clock 0%nat) (sample_clock 10%nat) in
  let new := merge old (Fields JUndefined (JBool true) JUndefined) (later 20%nat) in
  update (later 20%nat) (str "1") (Fields JUndefined (JBool true) JUndefined) st
  = (Store (<[0%nat := new]> (todos st)) 4,
     Response 200 (Success (One new) (Some TodoUpdated)))
  /\ text new = str "Learn Node"
  /\ completed new = JBool true
  /\ updatedAt new >= updatedAt old.
Proof.
  intros later trace st old new.
  assert (Hf : list_find (same_id (parseInt (str "1"))) (todos st)
               = Some (0%nat, old)) by reflexivity.
  destruct (proj1 (update_merges_patch (later 20%nat) (str "1") st _ _ Hf))
    as (E & Ht & _ & _ & _ & Hd & _ & Hu & _).
  split; [exact E|]. split; [exact Ht|]. split; [exact Hd|].
  apply (Hu fold_basic_latin sample_clock trace eq_refl).
  - unfold start_in_order, sample_clock. lia.
  - subst trace later. cbn. unfold sample_clock. lia.
  - subst trace later. cbn. unfold sample_clock. lia.
Defined.
